(** * Prospector: version resolution from git history

    A shallow embedding of [src/index.ts] (the version resolution engine of
    arcmantle/prospector) and the properties of its natural-language
    specification.

    Conventions of the embedding:
    - a JavaScript string is a [string]; one [ascii] stands for one code
      unit.  The regular expressions of the source only distinguish ASCII
      characters, every other code unit behaves like any non-alphanumeric one;
    - a JavaScript number that counts something is an [N]; the optional
      [maxCommitScan] is a [Z] because the caller may pass zero or a negative
      value and the source tests its sign;
    - [undefined]/[null] is [None];
    - the git collaborator is a record of answers ([Git]); the commands the
      engine issues are recorded in a log, the progress callback acts on an
      observer state.  Both live in the state of a small state monad;
    - the commits of a range are data of the collaborator; what [git log]
      prints for them ([log_stdout]), which of them [--grep] selects
      ([grep_match]) and how the engine splits the trimmed output
      ([commit_blocks], [parse_block]) are written out, because the commits
      the engine analyses are not the commits git lists;
    - an addition of the engine on version numbers and counts is an addition
      of doubles ([js_add]). *)

From Stdlib Require Import String Ascii List Bool NArith ZArith Lia DecimalString.
Import ListNotations.

Local Open Scope string_scope.
Local Open Scope N_scope.

Set Implicit Arguments.

(** ** Characters and strings *)

Module Str.

Definition code (c : ascii) : N := N_of_ascii c.

Definition is_digit (c : ascii) : bool := (48 <=? code c) && (code c <=? 57).
Definition is_upper (c : ascii) : bool := (65 <=? code c) && (code c <=? 90).
Definition is_lower (c : ascii) : bool := (97 <=? code c) && (code c <=? 122).
Definition is_dash (c : ascii) : bool := code c =? 45.

(** Case folding of the [i] flag, on ASCII letters. *)
Definition fold_case (c : ascii) : ascii :=
  if is_upper c then ascii_of_N (code c + 32) else c.

Definition eqb_ci (a b : ascii) : bool := Ascii.eqb (fold_case a) (fold_case b).

(** [eat_ci p s]: [s] starts with [p] up to case; the rest of [s]. *)
Fixpoint eat_ci (p s : string) : option string :=
  match p with
  | EmptyString => Some s
  | String a p' =>
      match s with
      | EmptyString => None
      | String b s' => if eqb_ci a b then eat_ci p' s' else None
      end
  end.

Definition starts_ci (p s : string) : bool :=
  match eat_ci p s with Some _ => true | None => false end.

(** [includes_ci p s]: some position of [s] starts with [p] up to case. *)
Fixpoint includes_ci (p s : string) : bool :=
  starts_ci p s ||
  match s with
  | EmptyString => false
  | String _ s' => includes_ci p s'
  end.

(** The longest run of digits at the head of [s], and what follows it. *)
Fixpoint span_digits (s : string) : string * string :=
  match s with
  | EmptyString => (EmptyString, EmptyString)
  | String c s' =>
      if is_digit c
      then let (d, r) := span_digits s' in (String c d, r)
      else (EmptyString, s)
  end.

(** [\d+]: a non-empty run of digits. *)
Definition eat_digits (s : string) : option (string * string) :=
  match span_digits s with
  | (EmptyString, _) => None
  | (d, r) => Some (d, r)
  end.

Definition eat_char (c : ascii) (s : string) : option string :=
  match s with
  | String b s' => if Ascii.eqb c b then Some s' else None
  | EmptyString => None
  end.

(** JavaScript truthiness of a string. *)
Definition truthy (s : string) : bool :=
  match s with EmptyString => false | _ => true end.

Definition of_N (n : N) : string := NilEmpty.string_of_uint (N.to_uint n).
Definition of_Z (z : Z) : string := NilEmpty.string_of_int (Z.to_int z).

Fixpoint join (sep : string) (l : list string) : string :=
  match l with
  | [] => EmptyString
  | [x] => x
  | x :: r => x ++ sep ++ join sep r
  end.

(** [s.slice(0, n)] *)
Fixpoint slice0 (n : nat) (s : string) : string :=
  match n, s with
  | S n', String c s' => String c (slice0 n' s')
  | _, _ => EmptyString
  end.

(** ['.'.repeat(n)] *)
Fixpoint repeat_dot (n : nat) : string :=
  match n with O => EmptyString | S n' => String "." (repeat_dot n') end.

(** The code units [0] and [10]. *)
Definition NUL : ascii := ascii_of_N 0.
Definition LF : ascii := ascii_of_N 10.

Definition is_nul (c : ascii) : bool := code c =? 0.

(** White space and line terminators of [String.prototype.trim], among
    the code units below 256: tab to carriage return, space, no-break
    space. *)
Definition is_space (c : ascii) : bool :=
  ((9 <=? code c) && (code c <=? 13)) || (code c =? 32) || (code c =? 160).

Fixpoint all_space (s : string) : bool :=
  match s with
  | EmptyString => true
  | String c s' => is_space c && all_space s'
  end.

Fixpoint trim_start (s : string) : string :=
  match s with
  | String c s' => if is_space c then trim_start s' else s
  | EmptyString => EmptyString
  end.

Fixpoint trim_end (s : string) : string :=
  match s with
  | EmptyString => EmptyString
  | String c s' =>
      if is_space c && all_space s' then EmptyString
      else String c (trim_end s')
  end.

(** [s.trim()] *)
Definition trim (s : string) : string := trim_end (trim_start s).

(** [s.split(NUL NUL)]: the pieces between the non-overlapping
    occurrences of two [NUL]s in a row, found from the left; [cur] is the
    piece being read. *)
Fixpoint split_nul_nul (s : string) (cur : string) : list string :=
  match s with
  | EmptyString => [cur]
  | String a r =>
      match r with
      | String b r' =>
          if is_nul a && is_nul b then cur :: split_nul_nul r' EmptyString
          else split_nul_nul r (cur ++ String a EmptyString)
      | EmptyString => [cur ++ String a EmptyString]
      end
  end.

(** [s.split(NUL)] *)
Fixpoint split_nul (s : string) (cur : string) : list string :=
  match s with
  | EmptyString => [cur]
  | String a r =>
      if is_nul a then cur :: split_nul r EmptyString
      else split_nul r (cur ++ String a EmptyString)
  end.

Fixpoint without_nul (s : string) : string :=
  match s with
  | EmptyString => EmptyString
  | String c s' => if is_nul c then without_nul s' else String c (without_nul s')
  end.

Fixpoint has_nul (s : string) : bool :=
  match s with
  | EmptyString => false
  | String c s' => is_nul c || has_nul s'
  end.

End Str.

(** ** Regular expressions of the source *)

(** A [RegExp] as the engine uses it: only [test] is called on the bump
    patterns.  The patterns are taken without the [g] and [y] flags, so
    [test] does not depend on earlier calls. *)
Record RegExp : Type := { test : string -> bool }.

(** [DEFAULT_BUMP_PATTERNS]: the bracketed markers, case-insensitive. *)
Definition DEFAULT_major : RegExp := {| test := Str.includes_ci "[major]" |}.
Definition DEFAULT_minor : RegExp := {| test := Str.includes_ci "[minor]" |}.
Definition DEFAULT_patch : RegExp := {| test := Str.includes_ci "[patch]" |}.

(** [VERSION_SET_PATTERN] = [/\[(?:version|v):(\d+\.\d+\.\d+)\]/i].

    [version_tail] is what follows the keyword: a colon, three non-empty
    digit runs separated by dots, a closing bracket.  It returns the text of
    the capture group. *)
Definition version_tail (s : string) : option string :=
  match Str.eat_char ":" s with
  | None => None
  | Some s1 =>
    match Str.eat_digits s1 with
    | None => None
    | Some (a, s2) =>
      match Str.eat_char "." s2 with
      | None => None
      | Some s3 =>
        match Str.eat_digits s3 with
        | None => None
        | Some (b, s4) =>
          match Str.eat_char "." s4 with
          | None => None
          | Some s5 =>
            match Str.eat_digits s5 with
            | None => None
            | Some (c, s6) =>
              match Str.eat_char "]" s6 with
              | None => None
              | Some _ => Some (a ++ "." ++ b ++ "." ++ c)
              end
            end
          end
        end
      end
    end
  end.

(** The pattern anchored at the head of [s]; the alternation tries
    [version] first and falls back to [v]. *)
Definition version_at (s : string) : option string :=
  match Str.eat_char "[" s with
  | None => None
  | Some r =>
      let alt (kw : string) :=
        match Str.eat_ci kw r with
        | Some r' => version_tail r'
        | None => None
        end in
      match alt "version" with
      | Some v => Some v
      | None => alt "v"
      end
  end.

(** [VERSION_SET_PATTERN.exec(message)?.[1]]: capture group of the leftmost
    match. *)
Fixpoint VERSION_SET_PATTERN_exec (s : string) : option string :=
  match version_at s with
  | Some v => Some v
  | None =>
      match s with
      | EmptyString => None
      | String _ s' => VERSION_SET_PATTERN_exec s'
      end
  end.

(** ** Data model *)

Record CommitInfo : Type := { hash : string; message : string }.

(** [semver.SemVer], as far as the engine reads and writes it: the three
    numbers and the prerelease identifiers that [format] prints. *)
Record SemVer : Type := {
  major : N;
  minor : N;
  patch : N;
  prerelease : list string
}.

Record VersionTag : Type := {
  tag : string;
  version : SemVer;
  commit : string
}.

Record Bumps : Type := {
  b_major : N;
  b_minor : N;
  b_patch : N;
  explicitVersion : option string
}.

Definition no_bumps : Bumps :=
  {| b_major := 0; b_minor := 0; b_patch := 0; explicitVersion := None |}.

Record Patterns : Type := {
  p_major : option RegExp;
  p_minor : option RegExp;
  p_patch : option RegExp
}.

(** [pattern?.test(message)] *)
Definition test_opt (p : option RegExp) (m : string) : bool :=
  match p with Some r => test r m | None => false end.

(** ** analyzeCommitBumps *)

(** One iteration of the loop of [analyzeCommitBumps] on a commit that does
    not carry an explicit version. *)
Definition count_bump (patterns : Patterns) (bumps : Bumps) (m : string) : Bumps :=
  if test_opt (p_major patterns) m then
    {| b_major := b_major bumps + 1; b_minor := b_minor bumps;
       b_patch := b_patch bumps; explicitVersion := explicitVersion bumps |}
  else if test_opt (p_minor patterns) m then
    {| b_major := b_major bumps; b_minor := b_minor bumps + 1;
       b_patch := b_patch bumps; explicitVersion := explicitVersion bumps |}
  else if test_opt (p_patch patterns) m then
    {| b_major := b_major bumps; b_minor := b_minor bumps;
       b_patch := b_patch bumps + 1; explicitVersion := explicitVersion bumps |}
  else bumps.

(** The [for ... of commits] loop, with its [break]. *)
Fixpoint analyze_loop (patterns : Patterns) (bumps : Bumps)
         (commits : list CommitInfo) : Bumps :=
  match commits with
  | [] => bumps
  | c :: older =>
      match VERSION_SET_PATTERN_exec (message c) with
      | Some v =>
          if Str.truthy v
          then {| b_major := b_major bumps; b_minor := b_minor bumps;
                  b_patch := b_patch bumps; explicitVersion := Some v |}
          else analyze_loop patterns (count_bump patterns bumps (message c)) older
      | None =>
          analyze_loop patterns (count_bump patterns bumps (message c)) older
      end
  end.

Definition analyzeCommitBumps (commits : list CommitInfo) (patterns : Patterns)
  : Bumps :=
  analyze_loop patterns no_bumps commits.

(** ** The git collaborator *)

(** The commands the engine hands to [gitExec]/[spawn]. *)
Inductive GitCmd : Type :=
| RevParseBranch                                (* rev-parse --abbrev-ref HEAD *)
| RevParseHead                                  (* rev-parse HEAD *)
| TagList (prefix : string)                     (* tag -l, show-ref --tags ... *)
| TagMerged (commit : string)                   (* tag --merged <commit> *)
| RevListCount (range : string)                 (* rev-list --count <range> *)
| Log (range : string) (limit : option Z)       (* log <range> [-n limit] --format=... *)
| LogGrep (range : string) (pattern : string).  (* log <range> --grep=<pattern> -E -i ... *)

Definition is_log (c : GitCmd) : bool :=
  match c with
  | Log _ _ | LogGrep _ _ => true
  | _ => false
  end.

(** The answers of one repository in one fixed state.  A failing command
    answers with the empty output, as [gitExec] resolves it: an empty
    string, an empty list, a zero count. *)
Record Git : Type := {
  (** trimmed output of [rev-parse --abbrev-ref HEAD] *)
  git_branch : string;
  (** trimmed output of [rev-parse HEAD] *)
  git_head : string;
  (** the result of [getVersionTags] for a tag prefix: the tags that parse
      as versions and have a commit, highest version first *)
  git_version_tags : string -> list VersionTag;
  (** the lines of [tag --merged <commit>] *)
  git_tags_merged : string -> list string;
  (** the commits of [log <range>], newest first: the full object name and
      the raw message of each, as the placeholders [%H] and [%B] print
      them *)
  git_log : string -> list CommitInfo;
  (** [parseInt] of [rev-list --count <range>], [0] when it fails *)
  git_count : string -> N;
  (** how many times the 500 ms timer fires while a count runs *)
  git_ticks : nat;
  (** [Number.prototype.toLocaleString] of the host *)
  toLocaleString : N -> string
}.

(** How git reads the pattern of [--grep] under [-E]: an extended regular
    expression, in which a backslash makes the next character literal, the
    bar included, and a bar that is not escaped separates alternatives.
    The pattern of the engine escapes every bracket and every bar and has
    no other operator, so it is a list of literal texts; the match is a
    case-insensitive search ([-i]). *)
Fixpoint grep_alternatives (pattern : string) (cur : string) : list string :=
  match pattern with
  | EmptyString => [cur]
  | String "\" (String c r) => grep_alternatives r (cur ++ String c EmptyString)
  | String "|" r => cur :: grep_alternatives r EmptyString
  | String c r => grep_alternatives r (cur ++ String c EmptyString)
  end.

Definition grep_match (pattern : string) (m : string) : bool :=
  existsb (fun alt => Str.includes_ci alt m) (grep_alternatives pattern EmptyString).

(** What [git log --format=%H%x00%B%x00] prints for one commit: the object
    name, a [NUL], the raw message, a [NUL], and the line feed that ends
    every record.  Git stores no [NUL] in an object name or a message. *)
Definition log_record (c : CommitInfo) : string :=
  Str.without_nul (hash c)
  ++ String Str.NUL (Str.without_nul (message c)
  ++ String Str.NUL (String Str.LF EmptyString)).

Fixpoint log_stdout (commits : list CommitInfo) : string :=
  match commits with
  | [] => EmptyString
  | c :: older => log_record c ++ log_stdout older
  end.

(** How many pieces of [Str.split_nul_nul s cur] hold a [NUL]; [open]
    tells whether the piece being read holds one already. *)
Fixpoint blocks_with_nul (s : string) (open : bool) : nat :=
  match s with
  | EmptyString => if open then 1 else 0
  | String a r =>
      match r with
      | String b r' =>
          if Str.is_nul a && Str.is_nul b
          then (if open then 1 else 0) + blocks_with_nul r' false
          else blocks_with_nul r (open || Str.is_nul a)
      | EmptyString => if open || Str.is_nul a then 1 else 0
      end
  end%nat.

(** ** Effects: the command log and the progress observer *)

Section Engine.

Variable Obs : Type.

(** A progress callback acts on the state of whoever observes the run. *)
Definition Callback : Type := string -> Obs -> Obs.

Record World : Type := {
  obs : Obs;
  issued : list (string * GitCmd)
}.

Definition M (A : Type) : Type := World -> A * World.

Definition ret {A} (a : A) : M A := fun w => (a, w).

Definition bind {A B} (m : M A) (k : A -> M B) : M B :=
  fun w => let (a, w') := m w in k a w'.

Notation "x <- m ;; k" := (bind m (fun x => k))
  (at level 61, m at next level, right associativity).
Notation "m ;;; k" := (bind m (fun _ => k))
  (at level 61, right associativity).

(** Calling the callback. *)
Definition progress (cb : Callback) (msg : string) : M unit :=
  fun w => (tt, {| obs := cb msg (obs w); issued := issued w |}).

(** [onProgress?.(msg)] *)
Definition progress_opt (cb : option Callback) (msg : string) : M unit :=
  match cb with Some f => progress f msg | None => ret tt end.

(** Running a git command in [cwd]: it is logged, its answer is the
    collaborator's. *)
Definition gitExec {A} (cwd : string) (cmd : GitCmd) (answer : A) : M A :=
  fun w => (answer, {| obs := obs w; issued := issued w ++ [(cwd, cmd)] |}).

Variable git : Git.

Definition getCurrentBranch (cwd : string) : M string :=
  branch <- gitExec cwd RevParseBranch (git_branch git) ;;
  ret (if Str.truthy branch then branch else "unknown").

Definition getCurrentCommit (cwd : string) : M string :=
  gitExec cwd RevParseHead (git_head git).

(** [getVersionTags]: listing the tags, keeping those that parse and
    sorting them is the collaborator's answer. *)
Definition getVersionTags (cwd tagPrefix : string) : M (list VersionTag) :=
  gitExec cwd (TagList tagPrefix) (git_version_tags git tagPrefix).

Definition getLastVersionTag (cwd currentCommit : string)
           (versionTags : list VersionTag) : M (option VersionTag) :=
  match versionTags with
  | [] => ret None
  | _ =>
      out <- gitExec cwd (TagMerged currentCommit)
                     (git_tags_merged git currentCommit) ;;
      let reachableTags := filter Str.truthy out in
      match reachableTags with
      | [] => ret None
      | _ =>
          ret (find (fun t => existsb (String.eqb (tag t)) reachableTags)
                    versionTags)
      end
  end.

(** The timer of [countCommits]/[countAllCommits]. *)
Fixpoint tick_loop (cb : Callback) (label : string) (n : nat) (dots : N)
  : M unit :=
  match n with
  | O => ret tt
  | S n' =>
      let dots' := (dots + 1) mod 4 in
      progress cb (label ++ Str.repeat_dot (N.to_nat dots')) ;;;
      tick_loop cb label n' dots'
  end.

Definition countCommits (cwd from to : string) (onProgress : option Callback)
  : M N :=
  let range := from ++ ".." ++ to in
  n <- gitExec cwd (RevListCount range) (git_count git range) ;;
  match onProgress with
  | Some cb => tick_loop cb "Counting commits" (git_ticks git) 0
  | None => ret tt
  end ;;;
  ret n.

Definition countAllCommits (cwd : string) (onProgress : option Callback)
  : M N :=
  n <- gitExec cwd (RevListCount "HEAD") (git_count git "HEAD") ;;
  match onProgress with
  | Some cb => tick_loop cb "Counting all commits" (git_ticks git) 0
  | None => ret tt
  end ;;;
  ret n.

Definition log_range (from to : string) : string :=
  if Str.truthy from then from ++ ".." ++ to else to.

(** [const [hash, message] = block.split(NUL)] and the test
    [hash && message !== undefined]: the first two fields of the block; a
    block without a [NUL] has no second field. *)
Definition parse_block (block : string) : option CommitInfo :=
  match Str.split_nul block EmptyString with
  | h :: m :: _ =>
      if Str.truthy h then Some {| hash := h; message := m |} else None
  | _ => None
  end.

(** The loop over the blocks. *)
Fixpoint parse_blocks (blocks : list string) : list CommitInfo :=
  match blocks with
  | [] => []
  | block :: rest =>
      match parse_block block with
      | Some c => c :: parse_blocks rest
      | None => parse_blocks rest
      end
  end.

(** [output.split(NUL NUL).filter(Boolean)] *)
Definition commit_blocks (output : string) : list string :=
  filter Str.truthy (Str.split_nul_nul output EmptyString).

Definition getCommitMessages (cwd from to : string) (limit : option Z)
  : M (list CommitInfo) :=
  let range := log_range from to in
  let limitFlag :=
    match limit with
    | Some l => if (l =? 0)%Z then None else Some l
    | None => None
    end in
  let all := git_log git range in
  let listed :=
    match limitFlag with
    | Some l => firstn (Z.to_nat l) all
    | None => all
    end in
  output <- gitExec cwd (Log range limitFlag) (Str.trim (log_stdout listed)) ;;
  if Str.truthy output then ret (parse_blocks (commit_blocks output))
  else ret [].

Definition BUMP_GREP_PATTERN : string :=
  "\[major\]\|\[minor\]\|\[patch\]\|\[version:\|\[v:".

Definition PARSE_CHUNK_SIZE : nat := 1000.

(** [Math.ceil(n / PARSE_CHUNK_SIZE)] *)
Definition total_chunks (n : nat) : N :=
  (N.of_nat n + 999) / 1000.

(** The chunked parsing loop of [getCommitsWithBumps]; [i] is the loop
    index, [rest] the blocks from [i] on.  [fuel] bounds the number of
    chunks. *)
Fixpoint parse_chunks (fuel : nat) (toLocale : N -> string)
         (onProgress : option Callback) (total : nat) (i : nat)
         (rest : list string) (allCommits : list CommitInfo)
  : M (list CommitInfo) :=
  match rest with
  | [] => ret allCommits
  | _ =>
      match fuel with
      | O => ret allCommits
      | S fuel' =>
          let chunk := firstn PARSE_CHUNK_SIZE rest in
          let chunkNum := N.of_nat i / 1000 + 1 in
          let totalChunks := total_chunks total in
          let allCommits' := (allCommits ++ parse_blocks chunk)%list in
          let parsed := toLocale (N.of_nat (length allCommits')) in
          let totalS := toLocale (N.of_nat total) in
          progress_opt onProgress
            ("Parsed " ++ parsed ++ " / " ++ totalS ++ " commits (chunk "
             ++ Str.of_N chunkNum ++ "/" ++ Str.of_N totalChunks ++ ")") ;;;
          parse_chunks fuel' toLocale onProgress total (i + PARSE_CHUNK_SIZE)
                       (skipn PARSE_CHUNK_SIZE rest) allCommits'
      end
  end.

(** The commits [--grep] selects. *)
Definition grep_commits (commits : list CommitInfo) : list CommitInfo :=
  filter (fun c => grep_match BUMP_GREP_PATTERN (message c)) commits.

Definition getCommitsWithBumps (cwd from to : string)
           (onProgress : option Callback) : M (list CommitInfo) :=
  let range := log_range from to in
  progress_opt onProgress "Searching for version bump markers..." ;;;
  output <- gitExec cwd (LogGrep range BUMP_GREP_PATTERN)
              (Str.trim (log_stdout (grep_commits (git_log git range)))) ;;
  if negb (Str.truthy output) then
    progress_opt onProgress "Search complete - no bump markers found" ;;;
    ret []
  else
    let commitBlocks := commit_blocks output in
    match commitBlocks with
    | [] =>
        progress_opt onProgress "Search complete - no bump markers found" ;;;
        ret []
    | _ =>
        let total := length commitBlocks in
        progress_opt onProgress
          ("Found " ++ toLocaleString git (N.of_nat total)
           ++ " commits with bump markers, parsing...") ;;;
        allCommits <- parse_chunks total (toLocaleString git) onProgress total 0
                                   commitBlocks [] ;;
        progress_opt onProgress
          ("Parsing complete - "
           ++ toLocaleString git (N.of_nat (length allCommits))
           ++ " commits with bump markers") ;;;
        ret allCommits
    end.

(** ** calculateVersion *)

Record ProspectorOptions : Type := {
  cwd : option string;
  mainBranch : option (string + list string);
  tagPrefix : option string;
  enableCommitBumps : option bool;
  maxCommitScan : option Z;
  commitBumpPatterns : option Patterns;
  onProgress : option Callback
}.

Record VersionInfo : Type := {
  vi_version : string;
  vi_branch : string;
  isMainBranch : bool;
  commitsSinceTag : N;
  lastTag : option VersionTag;
  currentCommit : string;
  commitBumps : Bumps
}.

(** [x || d] on an optional string: absent and empty both give [d]. *)
Definition or_default (x : option string) (d : string) : string :=
  match x with
  | Some s => if Str.truthy s then s else d
  | None => d
  end.

(** [options.mainBranch || ['main', 'master']], made an array. *)
Definition mainBranches_of (o : ProspectorOptions) : list string :=
  match mainBranch o with
  | Some (inl s) => if Str.truthy s then [s] else ["main"; "master"]
  | Some (inr l) => l
  | None => ["main"; "master"]
  end.

(** [options.enableCommitBumps !== false] *)
Definition enabled_of (o : ProspectorOptions) : bool :=
  match enableCommitBumps o with
  | Some false => false
  | _ => true
  end.

(** [options.commitBumpPatterns?.major || DEFAULT_BUMP_PATTERNS.major], and
    so on. *)
Definition bumpPatterns_of (o : ProspectorOptions) : Patterns :=
  let pick (sel : Patterns -> option RegExp) (d : RegExp) :=
    match commitBumpPatterns o with
    | Some p => match sel p with Some r => Some r | None => Some d end
    | None => Some d
    end in
  {| p_major := pick p_major DEFAULT_major;
     p_minor := pick p_minor DEFAULT_minor;
     p_patch := pick p_patch DEFAULT_patch |}.

(** [SemVer.prototype.format] *)
Definition format (v : SemVer) : string :=
  Str.of_N (major v) ++ "." ++ Str.of_N (minor v) ++ "." ++ Str.of_N (patch v)
  ++ match prerelease v with
     | [] => ""
     | ids => "-" ++ Str.join "." ids
     end.

(** [.replace(/[^a-zA-Z0-9-]/g, '-')] *)
Definition allowed (c : ascii) : bool :=
  Str.is_lower c || Str.is_upper c || Str.is_digit c || Str.is_dash c.

Fixpoint replace_disallowed (s : string) : string :=
  match s with
  | EmptyString => EmptyString
  | String c s' => String (if allowed c then c else "-"%char) (replace_disallowed s')
  end.

(** [.replace(/^-+|-+$/g, '')].  At the first position the alternative
    [^-+] removes the whole leading run of dashes; at any position the
    alternative [-+$] matches when everything from there on is a dash. *)
Fixpoint all_dashes (s : string) : bool :=
  match s with
  | EmptyString => true
  | String c s' => Str.is_dash c && all_dashes s'
  end.

Fixpoint drop_dashes (s : string) : string :=
  match s with
  | String c s' => if Str.is_dash c then drop_dashes s' else s
  | EmptyString => EmptyString
  end.

Fixpoint drop_trailing_dashes (s : string) : string :=
  match s with
  | EmptyString => EmptyString
  | String c s' =>
      if Str.is_dash c && all_dashes s' then EmptyString
      else String c (drop_trailing_dashes s')
  end.

Definition strip_dashes (s : string) : string :=
  drop_trailing_dashes (drop_dashes s).

(** The sanitized branch name of a prerelease version. *)
Definition sanitize (currentBranch : string) : string :=
  strip_dashes (replace_disallowed currentBranch).

Definition set_patch (v : SemVer) (p : N) : SemVer :=
  {| major := major v; minor := minor v; patch := p;
     prerelease := prerelease v |}.

(** [commitBumps.explicitVersion] used as a condition. *)
Definition explicit_truthy (b : Bumps) : bool :=
  match explicitVersion b with
  | Some v => Str.truthy v
  | None => false
  end.

(** A JavaScript number is a double.  [to_double n] is the double nearest
    to the natural number [n]: [n] itself up to [2 ^ 53], above it the
    nearest multiple of the spacing [2 ^ k] of its binade, a tie going to
    the even multiple. *)
Definition to_double (n : N) : N :=
  if n <=? 2 ^ 53 then n
  else
    let k := N.log2 n - 52 in
    let q := N.shiftr n k in
    let r := n mod 2 ^ k in
    let half := 2 ^ (k - 1) in
    let q' := if (half <? r) || ((r =? half) && N.odd q) then q + 1 else q in
    N.shiftl q' k.

(** [a + b] on two numbers that hold natural numbers: adding zero
    changes nothing, any other sum is rounded. *)
Definition js_add (a b : N) : N :=
  if b =? 0 then a else if a =? 0 then b else to_double (a + b).

(** The version on the path with a baseline tag (lines 581-622).  The
    [patch + 1] of the prerelease base is exact: [semver] reads no number
    above [2 ^ 53 - 1] from a tag. *)
Definition version_with_tag (isMain enableBumps : bool) (t : VersionTag)
           (bumps : Bumps) (commitsSince : N) (currentBranch : string)
  : string :=
  if isMain then
    if enableBumps && explicit_truthy bumps then
      match explicitVersion bumps with Some v => v | None => "" end
    else if enableBumps && ((0 <? b_major bumps) || (0 <? b_minor bumps)) then
      let v := version t in
      let mj := js_add (major v) (b_major bumps) in
      let mn := js_add (minor v) (b_minor bumps) in
      let nv :=
        if 0 <? b_major bumps then
          {| major := mj; minor := 0; patch := 0; prerelease := prerelease v |}
        else if 0 <? b_minor bumps then
          {| major := mj; minor := mn; patch := 0; prerelease := prerelease v |}
        else
          {| major := mj; minor := mn; patch := patch v;
             prerelease := prerelease v |} in
      format (set_patch nv (js_add (patch nv) (b_patch bumps)))
    else
      format (set_patch (version t) (js_add (patch (version t)) commitsSince))
  else
    let base := set_patch (version t) (patch (version t) + 1) in
    format base ++ "-" ++ sanitize currentBranch ++ "." ++ Str.of_N commitsSince.

(** The version on the path without a tag (lines 644-668). *)
Definition version_without_tag (isMain enableBumps : bool) (bumps : Bumps)
           (commitsSince : N) (currentBranch : string) : string :=
  if isMain then
    if enableBumps && explicit_truthy bumps then
      match explicitVersion bumps with Some v => v | None => "" end
    else if enableBumps && ((0 <? b_major bumps) || (0 <? b_minor bumps)) then
      format {| major := b_major bumps; minor := b_minor bumps;
                patch := b_patch bumps; prerelease := [] |}
    else
      "0.0." ++ Str.of_N commitsSince
  else
    "0.0.1-" ++ sanitize currentBranch ++ "." ++ Str.of_N commitsSince.

(** Fetching the commits for the bump analysis (lines 528-546). *)
Definition scan_commits (dir : string) (cb : Callback) (scan : option Z)
           (last : option VersionTag) (head : string) : M (list CommitInfo) :=
  let from := match last with Some t => commit t | None => "" end in
  match scan with
  | Some maxScan =>
      progress cb ("Scanning up to " ++ Str.of_Z maxScan
                   ++ " commits for version bumps...") ;;;
      let scanLimit := if (0 <? maxScan)%Z then Some maxScan else None in
      getCommitMessages dir from head scanLimit
  | None =>
      progress cb "Scanning for commits with version bumps (optimized)..." ;;;
      commits <- getCommitsWithBumps dir from head (Some cb) ;;
      progress cb ("Found " ++ Str.of_N (N.of_nat (length commits))
                   ++ " commit(s) with bump markers") ;;;
      ret commits
  end.

(** Reporting the result of the analysis (lines 550-558). *)
Definition report_bumps (cb : Callback) (bumps : Bumps) : M unit :=
  if explicit_truthy bumps then
    progress cb ("Explicit version found: "
                 ++ match explicitVersion bumps with Some v => v | None => "" end)
  else if (0 <? b_major bumps) || (0 <? b_minor bumps) || (0 <? b_patch bumps)
  then
    progress cb ("Bumps detected | Major: " ++ Str.of_N (b_major bumps)
                 ++ " | Minor: " ++ Str.of_N (b_minor bumps)
                 ++ " | Patch: " ++ Str.of_N (b_patch bumps))
  else ret tt.

(** Whether the length of the fetched list is the commit count (the
    conditions of lines 564-577 and 629-642); otherwise the count is asked
    for separately. *)
Definition length_is_count (scan : option Z) (commits : list CommitInfo)
  : bool :=
  match scan with
  | None => false
  | Some maxScan =>
      match commits with
      | [] => false
      | _ => (maxScan =? 0)%Z || (Z.of_nat (length commits) <? maxScan)%Z
      end
  end.

Definition count_since (dir : string) (cb : Callback) (scan : option Z)
           (commits : list CommitInfo) (last : option VersionTag)
           (head : string) : M N :=
  match last with
  | Some t =>
      n <- (if length_is_count scan commits
            then ret (N.of_nat (length commits))
            else
              n <- countCommits dir (commit t) head (Some cb) ;;
              progress cb ("Counted " ++ toLocaleString git n
                           ++ " commit(s) since " ++ tag t) ;;;
              ret n) ;;
      progress cb (Str.of_N n ++ " commit(s) since last tag (" ++ tag t ++ ")") ;;;
      ret n
  | None =>
      progress cb "No version tags found, starting from 0.0.0" ;;;
      if length_is_count scan commits
      then ret (N.of_nat (length commits))
      else
        n <- countAllCommits dir (Some cb) ;;
        progress cb ("Total commits in repository: " ++ toLocaleString git n) ;;;
        ret n
  end.

Definition calculateVersion (options : ProspectorOptions) : M VersionInfo :=
  let dir := or_default (cwd options) "." in
  let mainBranches := mainBranches_of options in
  let prefix := or_default (tagPrefix options) "v" in
  let enableBumps := enabled_of options in
  let scan := maxCommitScan options in
  let cb : Callback :=
    match onProgress options with Some f => f | None => fun _ s => s end in
  let bumpPatterns := bumpPatterns_of options in
  progress cb "Getting current branch and commit..." ;;;
  currentBranch <- getCurrentBranch dir ;;
  head <- getCurrentCommit dir ;;
  let isMain := existsb (String.eqb currentBranch) mainBranches in
  progress cb ("Branch: " ++ currentBranch ++ " | Commit: "
               ++ Str.slice0 8 head ++ " | Main: "
               ++ (if isMain then "Yes" else "No")) ;;;
  progress cb "Fetching version tags..." ;;;
  versionTags <- getVersionTags dir prefix ;;
  match versionTags with
  | t :: _ =>
      progress cb ("Found " ++ Str.of_N (N.of_nat (length versionTags))
                   ++ " version tag(s) | Latest: " ++ tag t)
  | [] => progress cb "Found 0 version tags"
  end ;;;
  last <- getLastVersionTag dir head versionTags ;;
  scanned <- (if enableBumps && isMain then
                commits <- scan_commits dir cb scan last head ;;
                let bumps := analyzeCommitBumps commits bumpPatterns in
                report_bumps cb bumps ;;;
                ret (commits, bumps)
              else ret ([], no_bumps)) ;;
  let commits := fst scanned in
  let bumps := snd scanned in
  n <- count_since dir cb scan commits last head ;;
  let v :=
    match last with
    | Some t => version_with_tag isMain enableBumps t bumps n currentBranch
    | None => version_without_tag isMain enableBumps bumps n currentBranch
    end in
  progress cb ("Calculated version: " ++ v) ;;;
  ret {| vi_version := v;
         vi_branch := currentBranch;
         isMainBranch := isMain;
         commitsSinceTag := n;
         lastTag := last;
         currentCommit := head;
         commitBumps := bumps |}.

End Engine.

Arguments ret {Obs A} a.

(** ** suggestVersionBump *)

(** A prerelease identifier that [semver] holds as a number: digits only,
    below [Number.MAX_SAFE_INTEGER]. *)
Definition numeric_identifier (id : string) : option N :=
  match Str.span_digits id with
  | (String _ _, EmptyString) =>
      match NilEmpty.uint_of_string id with
      | Some u => if N.of_uint u <? 2 ^ 53 - 1 then Some (N.of_uint u) else None
      | None => None
      end
  | _ => None
  end.

(** The loop of the kind [pre]: the last numeric identifier is
    incremented; [None] when there is none. *)
Fixpoint bump_last_numeric (ids : list string) : option (list string) :=
  match ids with
  | [] => None
  | id :: rest =>
      match bump_last_numeric rest with
      | Some rest' => Some (id :: rest')
      | None =>
          match numeric_identifier id with
          | Some n => Some (Str.of_N (n + 1) :: rest)
          | None => None
          end
      end
  end.

(** [inc('pre')] without an identifier: [[0]] on a release, otherwise the
    last numeric identifier incremented or a [0] appended. *)
Definition inc_pre (ids : list string) : list string :=
  match ids with
  | [] => ["0"]
  | _ =>
      match bump_last_numeric ids with
      | Some ids' => ids'
      | None => (ids ++ ["0"])%list
      end
  end.

(** [semver.inc(version, release)] as [suggestVersionBump] calls it, with
    no identifier, after the library as of its version 7.7 (the first with
    the kind [release]): the release kinds of the API type
    ['major' | 'minor' | 'patch'], the prerelease kinds a caller can pass
    all the same, and [null] for any other text. *)
Definition semver_inc (v : SemVer) (release : string) : option string :=
  let pre_empty := match prerelease v with [] => true | _ => false end in
  let out mj mn pt ids :=
    Some (format {| major := mj; minor := mn; patch := pt; prerelease := ids |}) in
  if String.eqb release "premajor" then out (major v + 1) 0 0 ["0"]
  else if String.eqb release "preminor" then out (major v) (minor v + 1) 0 ["0"]
  else if String.eqb release "prepatch" then
    out (major v) (minor v) (patch v + 1) ["0"]
  else if String.eqb release "prerelease" then
    if pre_empty then out (major v) (minor v) (patch v + 1) ["0"]
    else out (major v) (minor v) (patch v) (inc_pre (prerelease v))
  else if String.eqb release "release" then
    if pre_empty then None else out (major v) (minor v) (patch v) []
  else if String.eqb release "major" then
    if negb (minor v =? 0) || negb (patch v =? 0) || pre_empty
    then out (major v + 1) 0 0 [] else out (major v) 0 0 []
  else if String.eqb release "minor" then
    if negb (patch v =? 0) || pre_empty
    then out (major v) (minor v + 1) 0 [] else out (major v) (minor v) 0 []
  else if String.eqb release "patch" then
    if pre_empty
    then out (major v) (minor v) (patch v + 1) []
    else out (major v) (minor v) (patch v) []
  else if String.eqb release "pre" then
    out (major v) (minor v) (patch v) (inc_pre (prerelease v))
  else None.

Section Suggest.

Variable Obs : Type.
Variable git : Git.

(** The increment function of the semver package. *)
Variable inc : SemVer -> string -> option string.

(** The body has no [throw] and [semver.inc] catches its own errors: the
    promise always fulfils with a string. *)
Definition suggestVersionBump (bumpType : string)
           (options : ProspectorOptions Obs) : M Obs string :=
  bind (calculateVersion git options) (fun info =>
    let currentBase :=
      match lastTag info with
      | Some t => version t
      | None => {| major := 0; minor := 0; patch := 0; prerelease := [] |}
      end in
    let bumped := inc currentBase bumpType in
    ret (match bumped with
         | Some b => if Str.truthy b then b else "1.0.0"
         | None => "1.0.0"
         end)).

End Suggest.

(** ** What a run computes

    The values of the stages of [calculateVersion], written without the
    monad.  The lemmas of the section on runs show that the engine returns
    them whatever the callback and the observer are. *)

Section Values.

Variable git : Git.

Definition last_tag_value (prefix head : string) : option VersionTag :=
  match git_version_tags git prefix with
  | [] => None
  | versionTags =>
      match filter Str.truthy (git_tags_merged git head) with
      | [] => None
      | reachableTags =>
          find (fun t => existsb (String.eqb (tag t)) reachableTags) versionTags
      end
  end.

(** The history the exhaustive strategy reads, the targeted strategy
    filters. *)
Definition history (last : option VersionTag) (head : string)
  : list CommitInfo :=
  git_log git (log_range (match last with Some t => commit t | None => "" end)
                         head).

(** What the engine reads from the trimmed output of a log command. *)
Definition parse_log (output : string) : list CommitInfo :=
  if Str.truthy output then parse_blocks (commit_blocks output) else [].

Definition exhaustive_commits (maxScan : Z) (last : option VersionTag)
           (head : string) : list CommitInfo :=
  parse_log (Str.trim (log_stdout
    (if (0 <? maxScan)%Z
     then firstn (Z.to_nat maxScan) (history last head)
     else history last head))).

Definition targeted_commits (last : option VersionTag) (head : string)
  : list CommitInfo :=
  parse_log (Str.trim (log_stdout (grep_commits (history last head)))).

Definition scan_value (scan : option Z) (last : option VersionTag)
           (head : string) : list CommitInfo :=
  match scan with
  | Some maxScan => exhaustive_commits maxScan last head
  | None => targeted_commits last head
  end.

Definition count_value (scan : option Z) (commits : list CommitInfo)
           (last : option VersionTag) (head : string) : N :=
  if length_is_count scan commits then N.of_nat (length commits)
  else match last with
       | Some t => git_count git (commit t ++ ".." ++ head)
       | None => git_count git "HEAD"
       end.

(** The options without the callback. *)
Record Config : Type := {
  c_cwd : option string;
  c_mainBranch : option (string + list string);
  c_tagPrefix : option string;
  c_enableCommitBumps : option bool;
  c_maxCommitScan : option Z;
  c_commitBumpPatterns : option Patterns
}.

Definition with_callback {Obs} (c : Config) (cb : option (Callback Obs))
  : ProspectorOptions Obs :=
  {| cwd := c_cwd c; mainBranch := c_mainBranch c; tagPrefix := c_tagPrefix c;
     enableCommitBumps := c_enableCommitBumps c;
     maxCommitScan := c_maxCommitScan c;
     commitBumpPatterns := c_commitBumpPatterns c;
     onProgress := cb |}.

Definition config_of {Obs} (o : ProspectorOptions Obs) : Config :=
  {| c_cwd := cwd o; c_mainBranch := mainBranch o; c_tagPrefix := tagPrefix o;
     c_enableCommitBumps := enableCommitBumps o;
     c_maxCommitScan := maxCommitScan o;
     c_commitBumpPatterns := commitBumpPatterns o |}.

(** The commits a run fetches for the bump analysis. *)
Definition fetched_commits (c : Config) : list CommitInfo :=
  let o := with_callback (Obs := unit) c None in
  let currentBranch :=
    if Str.truthy (git_branch git) then git_branch git else "unknown" in
  let head := git_head git in
  let isMain := existsb (String.eqb currentBranch) (mainBranches_of o) in
  let last := last_tag_value (or_default (c_tagPrefix c) "v") head in
  if enabled_of o && isMain then scan_value (c_maxCommitScan c) last head
  else [].

Definition version_value (c : Config) : VersionInfo :=
  let o := with_callback (Obs := unit) c None in
  let currentBranch :=
    if Str.truthy (git_branch git) then git_branch git else "unknown" in
  let head := git_head git in
  let isMain := existsb (String.eqb currentBranch) (mainBranches_of o) in
  let last := last_tag_value (or_default (c_tagPrefix c) "v") head in
  let commits := fetched_commits c in
  let bumps :=
    if enabled_of o && isMain
    then analyzeCommitBumps commits (bumpPatterns_of o)
    else no_bumps in
  let n := count_value (c_maxCommitScan c) commits last head in
  {| vi_version :=
       match last with
       | Some t => version_with_tag isMain (enabled_of o) t bumps n currentBranch
       | None => version_without_tag isMain (enabled_of o) bumps n currentBranch
       end;
     vi_branch := currentBranch;
     isMainBranch := isMain;
     commitsSinceTag := n;
     lastTag := last;
     currentCommit := head;
     commitBumps := bumps |}.

End Values.

(** ** The classifier and the aggregator of the specification *)

(** The intent of one commit message, in the words of the specification:
    the explicit-version pattern first, then major, minor, patch. *)
Inductive Intent : Type :=
| Explicit (v : string)
| Major
| Minor
| Patch
| NoIntent.

Definition spec_classify (patterns : Patterns) (m : string) : Intent :=
  match VERSION_SET_PATTERN_exec m with
  | Some v => Explicit v
  | None =>
      if test_opt (p_major patterns) m then Major
      else if test_opt (p_minor patterns) m then Minor
      else if test_opt (p_patch patterns) m then Patch
      else NoIntent
  end.

Definition is_explicit (i : Intent) : bool :=
  match i with Explicit _ => true | _ => false end.

Definition is_major (i : Intent) : bool :=
  match i with Major => true | _ => false end.

Definition is_minor (i : Intent) : bool :=
  match i with Minor => true | _ => false end.

Definition is_patch (i : Intent) : bool :=
  match i with Patch => true | _ => false end.

(** The commits newer than the newest explicit-version commit. *)
Fixpoint newer_than_explicit (patterns : Patterns) (commits : list CommitInfo)
  : list CommitInfo :=
  match commits with
  | [] => []
  | c :: older =>
      if is_explicit (spec_classify patterns (message c)) then []
      else c :: newer_than_explicit patterns older
  end.

(** The version of the newest explicit-version commit. *)
Fixpoint newest_explicit (patterns : Patterns) (commits : list CommitInfo)
  : option string :=
  match commits with
  | [] => None
  | c :: older =>
      match spec_classify patterns (message c) with
      | Explicit v => Some v
      | _ => newest_explicit patterns older
      end
  end.

Definition count_intent (patterns : Patterns) (p : Intent -> bool)
           (commits : list CommitInfo) : N :=
  N.of_nat (length (filter (fun c => p (spec_classify patterns (message c)))
                           commits)).

(** ** Predicates on runs *)

Section RunPredicates.

Variable Obs : Type.

(** [m] returns [a] from every world. *)
Definition returns {A} (m : M Obs A) (a : A) : Prop :=
  forall w, fst (m w) = a.

Definition not_a_log (q : string * GitCmd) : bool := negb (is_log (snd q)).

(** [m] issues git commands, none of which reads commit messages. *)
Definition fetches_no_messages {A} (m : M Obs A) : Prop :=
  forall w, exists l,
    issued (snd (m w)) = (issued w ++ l)%list /\ forallb not_a_log l = true.

End RunPredicates.

(** ** Repositories and options of the scenarios *)

Definition plain_version (mj mn pt : N) : SemVer :=
  {| major := mj; minor := mn; patch := pt; prerelease := [] |}.

(** A repository whose HEAD is [head] on [branch]; [base], when present, is
    the one version tag, an ancestor of HEAD; [commits] are the commits
    since the tag (all the commits when there is none), newest first. *)
Definition scenario (branch : string) (base : option VersionTag)
           (commits : list CommitInfo) : Git :=
  let head := "head" in
  {| git_branch := branch;
     git_head := head;
     git_version_tags := fun prefix =>
       match base with
       | Some t => if String.prefix prefix (tag t) then [t] else []
       | None => []
       end;
     git_tags_merged := fun _ =>
       match base with Some t => [tag t] | None => [] end;
     git_log := fun range =>
       if String.eqb range
            (match base with Some t => commit t ++ ".." ++ head | None => head end)
       then commits else [];
     git_count := fun range =>
       if String.eqb range
            (match base with Some t => commit t ++ ".." ++ head | None => "HEAD" end)
       then N.of_nat (length commits) else 0;
     git_ticks := 1;
     toLocaleString := Str.of_N |}.

Definition tag_at (name : string) (v : SemVer) : VersionTag :=
  {| tag := name; version := v; commit := "base" |}.

Definition default_config : Config :=
  {| c_cwd := None; c_mainBranch := None; c_tagPrefix := None;
     c_enableCommitBumps := None; c_maxCommitScan := None;
     c_commitBumpPatterns := None |}.

(** The default options: targeted scanning, no callback. *)
Definition targeted_options : ProspectorOptions unit :=
  with_callback default_config None.

(** [maxCommitScan: 0]: exhaustive scanning without a cap. *)
Definition exhaustive_config : Config :=
  {| c_cwd := None; c_mainBranch := None; c_tagPrefix := None;
     c_enableCommitBumps := None; c_maxCommitScan := Some 0%Z;
     c_commitBumpPatterns := None |}.

Definition exhaustive_options : ProspectorOptions unit :=
  with_callback exhaustive_config None.

Definition with_patterns (c : Config) (p : Patterns) : Config :=
  {| c_cwd := c_cwd c; c_mainBranch := c_mainBranch c;
     c_tagPrefix := c_tagPrefix c;
     c_enableCommitBumps := c_enableCommitBumps c;
     c_maxCommitScan := c_maxCommitScan c;
     c_commitBumpPatterns := Some p |}.

(** [commitBumpPatterns: { minor: /feat:/i }] *)
Definition feat_patterns : Patterns :=
  {| p_major := None;
     p_minor := Some {| test := Str.includes_ci "feat:" |};
     p_patch := None |}.

Definition world0 : World unit := {| obs := tt; issued := [] |}.

(** A callback that keeps the messages it is given. *)
Definition recording : Callback (list string) := fun msg seen => (msg :: seen)%list.

(** A commit with its raw message.  The messages of the scenarios are
    written without the final line feed that [git commit -m] appends; the
    patterns used on them do not read it. *)
Definition commit_of (h m : string) : CommitInfo := {| hash := h; message := m |}.

(** Baseline [v1.0.0], then ["[v:2.0.0] jump"], then two plain commits. *)
Definition jump_repo : Git :=
  scenario "main" (Some (tag_at "v1.0.0" (plain_version 1 0 0)))
           [commit_of "c3" "plain 2"; commit_of "c2" "plain 1";
            commit_of "c1" "[v:2.0.0] jump"].


(** Oldest first: a major commit, a commit with an empty message
    ([git commit --allow-empty-message]) and a minor commit; without a tag
    and since a tag [v0.0.0]. *)
Definition major_minor_commits : list CommitInfo :=
  [commit_of "c3" "[minor] y"; commit_of "c2" ""; commit_of "c1" "[major] x"].

Definition untagged_repo : Git := scenario "main" None major_minor_commits.

Definition zero_tagged_repo : Git :=
  scenario "main" (Some (tag_at "v0.0.0" (plain_version 0 0 0)))
           major_minor_commits.

(** Baseline [v1.0.0], then one commit that only the custom minor pattern
    recognises. *)
Definition feat_repo : Git :=
  scenario "main" (Some (tag_at "v1.0.0" (plain_version 1 0 0)))
           [commit_of "c1" "feat: a"].

(** A feature branch whose commits carry markers. *)
Definition feature_repo : Git :=
  scenario "feature/x" (Some (tag_at "v1.0.0" (plain_version 1 0 0)))
           [commit_of "c2" "[major] x"; commit_of "c1" "[v:9.9.9] y"].

(** The patterns of a run without [commitBumpPatterns]. *)
Definition default_patterns : Patterns :=
  {| p_major := Some DEFAULT_major; p_minor := Some DEFAULT_minor;
     p_patch := Some DEFAULT_patch |}.

(** Baseline [v1.0.0], then two plain commits, then ["[v:2.0.0] jump"] as
    the newest commit. *)
Definition newest_jump_repo : Git :=
  scenario "main" (Some (tag_at "v1.0.0" (plain_version 1 0 0)))
           [commit_of "c3" "[v:2.0.0] jump"; commit_of "c2" "plain 2";
            commit_of "c1" "plain 1"].

(** Baseline [v1.2.0], then, oldest first, a minor commit, a minor commit
    and a patch commit, with a commit with an empty message between any
    two of them. *)
Definition spaced_minor_minor_patch_repo : Git :=
  scenario "main" (Some (tag_at "v1.2.0" (plain_version 1 2 0)))
           [commit_of "c5" "[patch] c"; commit_of "c4" "";
            commit_of "c3" "[minor] b"; commit_of "c2" "";
            commit_of "c1" "[minor] a"].

(** ** Properties of the sanitization *)

Fixpoint string_forall (p : ascii -> bool) (s : string) : bool :=
  match s with
  | EmptyString => true
  | String c s' => p c && string_forall p s'
  end.

Definition starts_with_dash (s : string) : bool :=
  match s with String c _ => Str.is_dash c | EmptyString => false end.

Fixpoint ends_with_dash (s : string) : bool :=
  match s with
  | EmptyString => false
  | String c EmptyString => Str.is_dash c
  | String _ s' => ends_with_dash s'
  end.

(** ** Further repositories *)

(** Five plain commits on the trunk, no tag. *)
Definition plain_untagged_repo : Git :=
  scenario "main" None
           [commit_of "c5" "e"; commit_of "c4" "d"; commit_of "c3" "c";
            commit_of "c2" "b"; commit_of "c1" "a"].

(** Three commits on a feature branch, no tag. *)
Definition untagged_feature_repo : Git :=
  scenario "feature/test" None
           [commit_of "c3" "c"; commit_of "c2" "[major] b"; commit_of "c1" "a"].

(** Baseline [v1.2.0], then a patch marker and two plain commits. *)
Definition patch_only_repo : Git :=
  scenario "main" (Some (tag_at "v1.2.0" (plain_version 1 2 0)))
           [commit_of "c3" "plain 2"; commit_of "c2" "plain 1";
            commit_of "c1" "[patch] fix"].

(** Baseline [v1.5.7], then a major marker, a minor marker and a patch
    marker. *)
Definition major_repo : Git :=
  scenario "main" (Some (tag_at "v1.5.7" (plain_version 1 5 7)))
           [commit_of "c3" "[patch] z"; commit_of "c2" "[minor] y";
            commit_of "c1" "[major] x"].

(** Baseline [v1.2.0], then two plain commits and a patch marker in the
    newest commit. *)
Definition newest_patch_repo : Git :=
  scenario "main" (Some (tag_at "v1.2.0" (plain_version 1 2 0)))
           [commit_of "c3" "[patch] fix"; commit_of "c2" "plain 2";
            commit_of "c1" "plain 1"].

(** Baseline [v1.5.7], then, oldest first, a patch marker, a minor marker
    and a major marker, with a commit with an empty message between any two
    of them. *)
Definition spaced_major_repo : Git :=
  scenario "main" (Some (tag_at "v1.5.7" (plain_version 1 5 7)))
           [commit_of "c5" "[major] x"; commit_of "c4" "";
            commit_of "c3" "[minor] y"; commit_of "c2" "";
            commit_of "c1" "[patch] z"].

(** Baseline [v1.2.0], then two plain commits and a newest commit whose
    message quotes the text of the grep pattern. *)
Definition quoted_pattern_repo : Git :=
  scenario "main" (Some (tag_at "v1.2.0" (plain_version 1 2 0)))
           [commit_of "c3" "use [major]|[minor]|[patch]|[version:|[v: markers";
            commit_of "c2" "plain 2"; commit_of "c1" "plain 1"].

(** [enableCommitBumps: false] *)
Definition disabled_config : Config :=
  {| c_cwd := None; c_mainBranch := None; c_tagPrefix := None;
     c_enableCommitBumps := Some false; c_maxCommitScan := None;
     c_commitBumpPatterns := None |}.

Definition disabled_options : ProspectorOptions unit :=
  with_callback disabled_config None.

(** ** Vocabulary of the further properties *)

From Stdlib Require Import DecimalPos.

(** A non-empty run of digits. *)
Definition digits_only (s : string) : bool :=
  string_forall Str.is_digit s && Str.truthy s.

Fixpoint lower (s : string) : string :=
  match s with
  | EmptyString => EmptyString
  | String c r => String (Str.fold_case c) (lower r)
  end.

Definition not_open_bracket (c : ascii) : bool := negb (Ascii.eqb "[" c).

(** An explicit-version marker as a committer writes it. *)
Definition marker (kw a b c : string) : string :=
  "[" ++ kw ++ ":" ++ a ++ "." ++ b ++ "." ++ c ++ "]".

(** The range whose count a run asks for. *)
Definition count_range (last : option VersionTag) (head : string) : string :=
  match last with
  | Some t => commit t ++ ".." ++ head
  | None => "HEAD"
  end.

(** Adding two tallies; the explicit version is that of the older part. *)
Definition add_bumps (newer older : Bumps) : Bumps :=
  {| b_major := b_major newer + b_major older;
     b_minor := b_minor newer + b_minor older;
     b_patch := b_patch newer + b_patch older;
     explicitVersion := explicitVersion older |}.

(** A directory that is not a repository: every command fails. *)
Definition broken_git : Git :=
  {| git_branch := ""; git_head := "";
     git_version_tags := fun _ => [];
     git_tags_merged := fun _ => [];
     git_log := fun _ => [];
     git_count := fun _ => 0;
     git_ticks := 0;
     toLocaleString := Str.of_N |}.

(** [maxCommitScan: 2] *)
Definition capped_config : Config :=
  {| c_cwd := None; c_mainBranch := None; c_tagPrefix := None;
     c_enableCommitBumps := None; c_maxCommitScan := Some 2%Z;
     c_commitBumpPatterns := None |}.

Definition capped_options : ProspectorOptions unit :=
  with_callback capped_config None.

(** [maxCommitScan: 1] *)
Definition newest_only_config : Config :=
  {| c_cwd := None; c_mainBranch := None; c_tagPrefix := None;
     c_enableCommitBumps := None; c_maxCommitScan := Some 1%Z;
     c_commitBumpPatterns := None |}.

Definition newest_only_options : ProspectorOptions unit :=
  with_callback newest_only_config None.

(** ** The commands of a run, as a value *)

Section CommandValues.

Variable Obs : Type.

(** [m] appends exactly [cmds] to the log of issued commands. *)
Definition issues {A} (m : M Obs A) (cmds : list (string * GitCmd)) : Prop :=
  forall w, issued (snd (m w)) = (issued w ++ cmds)%list.

(** What holds of the result and the world after [m]. *)
Definition ensures {A} (m : M Obs A) (post : A -> World Obs -> Prop) : Prop :=
  forall w, post (fst (m w)) (snd (m w)).

End CommandValues.

(** The log command of a run that analyses bumps. *)
Definition scan_command (scan : option Z) (last : option VersionTag)
           (head : string) : GitCmd :=
  let range :=
    log_range (match last with Some t => commit t | None => "" end) head in
  match scan with
  | Some k => Log range (if (0 <? k)%Z then Some k else None)
  | None => LogGrep range BUMP_GREP_PATTERN
  end.

(** The git commands of a run, in the order they are issued. *)
Definition commands_value (git : Git) (c : Config) : list GitCmd :=
  let o := with_callback (Obs := unit) c None in
  let info := version_value git c in
  let prefix := or_default (c_tagPrefix c) "v" in
  let head := git_head git in
  ([RevParseBranch; RevParseHead; TagList prefix]
   ++ match git_version_tags git prefix with
      | [] => []
      | _ => [TagMerged head]
      end
   ++ (if enabled_of o && isMainBranch info
       then [scan_command (c_maxCommitScan c) (lastTag info) head]
       else [])
   ++ (if length_is_count (c_maxCommitScan c) (fetched_commits git c)
       then []
       else [RevListCount (count_range (lastTag info) head)]))%list.

(** ** parseCommandArgs *)

Definition dquote : ascii := ascii_of_N 34.
Definition squote : ascii := "'".

Definition is_quote (c : ascii) : bool := Ascii.eqb c dquote || Ascii.eqb c squote.

(** The loop of [parseCommandArgs] over the characters of the command, with
    its four variables. *)
Fixpoint parse_args_loop (command : string) (args : list string)
         (current : string) (inQuote : bool) (quoteChar : string)
  : list string :=
  match command with
  | EmptyString =>
      if Str.truthy current then (args ++ [current])%list else args
  | String char rest =>
      if is_quote char && negb inQuote then
        parse_args_loop rest args current true (String char EmptyString)
      else if String.eqb (String char EmptyString) quoteChar && inQuote then
        parse_args_loop rest args current false EmptyString
      else if Ascii.eqb char " " && negb inQuote then
        if Str.truthy current
        then parse_args_loop rest (args ++ [current])%list EmptyString
                             inQuote quoteChar
        else parse_args_loop rest args current inQuote quoteChar
      else
        parse_args_loop rest args (current ++ String char EmptyString)
                        inQuote quoteChar
  end.

Definition parseCommandArgs (command : string) : list string :=
  parse_args_loop command [] EmptyString false EmptyString.

(** A character that is neither a space nor a quote. *)
Definition plain_char (c : ascii) : bool :=
  negb (is_quote c) && negb (Ascii.eqb c " ").

(** A non-empty word without spaces and quotes. *)
Definition plain_word (s : string) : bool :=
  string_forall plain_char s && Str.truthy s.

Definition not_squote (c : ascii) : bool := negb (Ascii.eqb c squote).

Definition LOG_FORMAT : string := "--format=%H%x00%B%x00".

(** The command of [getCommitsWithBumps] (line 402). *)
Definition grep_command_line (range : string) : string :=
  "log " ++ range ++ " --grep='" ++ BUMP_GREP_PATTERN ++ "' -E -i " ++ LOG_FORMAT.

(** The command of [getCommitMessages] (lines 362-364). *)
Definition log_command_line (range : string) (limit : option Z) : string :=
  let limitFlag :=
    match limit with
    | Some l => if (l =? 0)%Z then "" else "-n " ++ Str.of_Z l
    | None => ""
    end in
  "log " ++ range ++ " " ++ limitFlag ++ " " ++ LOG_FORMAT.

(** ** The command line interface ([cli.ts]) *)

Inductive OutputFormat : Type := FormatVersion | FormatJson | FormatDetailed.

Record CLIOptions : Type := {
  cli_cwd : option string;
  cli_mainBranch : option string;
  cli_tagPrefix : option string;
  cli_format : OutputFormat;
  cli_suggest : option string;
  cli_enableCommitBumps : bool;
  cli_showMemory : bool
}.

(** The options the constructor starts from. *)
Definition cli_defaults : CLIOptions :=
  {| cli_cwd := None; cli_mainBranch := None; cli_tagPrefix := Some "v";
     cli_format := FormatVersion; cli_suggest := None;
     cli_enableCommitBumps := true; cli_showMemory := false |}.

(** [parseArguments] either leaves the options it has set or ends the
    process: with code 0 after the help text, with code 1 and two lines on
    the error stream for an unknown option. *)
Inductive Parse : Type :=
| Parsed (o : CLIOptions)
| Exited (code : N) (stderr : list string).

Definition set_cwd (o : CLIOptions) (v : option string) : CLIOptions :=
  {| cli_cwd := v; cli_mainBranch := cli_mainBranch o;
     cli_tagPrefix := cli_tagPrefix o; cli_format := cli_format o;
     cli_suggest := cli_suggest o;
     cli_enableCommitBumps := cli_enableCommitBumps o;
     cli_showMemory := cli_showMemory o |}.

Definition set_mainBranch (o : CLIOptions) (v : option string) : CLIOptions :=
  {| cli_cwd := cli_cwd o; cli_mainBranch := v;
     cli_tagPrefix := cli_tagPrefix o; cli_format := cli_format o;
     cli_suggest := cli_suggest o;
     cli_enableCommitBumps := cli_enableCommitBumps o;
     cli_showMemory := cli_showMemory o |}.

Definition set_tagPrefix (o : CLIOptions) (v : option string) : CLIOptions :=
  {| cli_cwd := cli_cwd o; cli_mainBranch := cli_mainBranch o;
     cli_tagPrefix := v; cli_format := cli_format o;
     cli_suggest := cli_suggest o;
     cli_enableCommitBumps := cli_enableCommitBumps o;
     cli_showMemory := cli_showMemory o |}.

Definition set_format (o : CLIOptions) (v : OutputFormat) : CLIOptions :=
  {| cli_cwd := cli_cwd o; cli_mainBranch := cli_mainBranch o;
     cli_tagPrefix := cli_tagPrefix o; cli_format := v;
     cli_suggest := cli_suggest o;
     cli_enableCommitBumps := cli_enableCommitBumps o;
     cli_showMemory := cli_showMemory o |}.

Definition set_suggest (o : CLIOptions) (v : option string) : CLIOptions :=
  {| cli_cwd := cli_cwd o; cli_mainBranch := cli_mainBranch o;
     cli_tagPrefix := cli_tagPrefix o; cli_format := cli_format o;
     cli_suggest := v;
     cli_enableCommitBumps := cli_enableCommitBumps o;
     cli_showMemory := cli_showMemory o |}.

Definition set_enableCommitBumps (o : CLIOptions) (v : bool) : CLIOptions :=
  {| cli_cwd := cli_cwd o; cli_mainBranch := cli_mainBranch o;
     cli_tagPrefix := cli_tagPrefix o; cli_format := cli_format o;
     cli_suggest := cli_suggest o;
     cli_enableCommitBumps := v;
     cli_showMemory := cli_showMemory o |}.

Definition set_showMemory (o : CLIOptions) (v : bool) : CLIOptions :=
  {| cli_cwd := cli_cwd o; cli_mainBranch := cli_mainBranch o;
     cli_tagPrefix := cli_tagPrefix o; cli_format := cli_format o;
     cli_suggest := cli_suggest o;
     cli_enableCommitBumps := cli_enableCommitBumps o;
     cli_showMemory := v |}.

Definition is_one_of (names : list string) (arg : string) : bool :=
  existsb (String.eqb arg) names.

(** An option that takes the next argument as its value. *)
Definition takes_value (arg : string) : bool :=
  is_one_of ["-d"; "--dir"; "-b"; "--branch"; "-p"; "--prefix"; "--suggest"] arg.

Definition is_help (arg : string) : bool := is_one_of ["-h"; "--help"] arg.

(** The loop of [parseArguments].  An option that takes a value reads it
    with [args[++i]]: the next argument whatever it looks like, [undefined]
    when the option is the last argument. *)
Fixpoint parseArguments (args : list string) (o : CLIOptions) : Parse :=
  match args with
  | [] => Parsed o
  | arg :: rest =>
      let with_value (set : CLIOptions -> option string -> CLIOptions) :=
        match rest with
        | v :: rest' => parseArguments rest' (set o (Some v))
        | [] => Parsed (set o None)
        end in
      if is_one_of ["-h"; "--help"] arg then Exited 0 []
      else if is_one_of ["-d"; "--dir"] arg then with_value set_cwd
      else if is_one_of ["-b"; "--branch"] arg then with_value set_mainBranch
      else if is_one_of ["-p"; "--prefix"] arg then with_value set_tagPrefix
      else if String.eqb arg "--json" then
        parseArguments rest (set_format o FormatJson)
      else if String.eqb arg "--detailed" then
        parseArguments rest (set_format o FormatDetailed)
      else if String.eqb arg "--suggest" then with_value set_suggest
      else if String.eqb arg "--no-commit-bumps" then
        parseArguments rest (set_enableCommitBumps o false)
      else if String.eqb arg "--show-memory" then
        parseArguments rest (set_showMemory o true)
      else if String.prefix "-" arg then
        Exited 1 ["Unknown option: " ++ arg;
                  "Use --help for usage information"]
      else parseArguments rest o
  end.

(** [new ProspectorCLI(args)] *)
Definition ProspectorCLI (args : list string) : Parse :=
  parseArguments args cli_defaults.

Definition starts_with_hyphen (arg : string) : bool := String.prefix "-" arg.

(** An argument that changes nothing or sets a flag without a value. *)
Definition no_value_no_exit (arg : string) : bool :=
  negb (takes_value arg) && negb (is_help arg)
  && (negb (starts_with_hyphen arg)
      || is_one_of ["--json"; "--detailed"; "--no-commit-bumps"; "--show-memory"]
                   arg).

Definition known_option (arg : string) : bool :=
  takes_value arg || is_help arg
  || is_one_of ["--json"; "--detailed"; "--no-commit-bumps"; "--show-memory"] arg.

(** ** Variations of a repository *)

(** The same repository with other commit messages: every answer is kept
    but the log. *)
Definition with_log (git : Git) (log : string -> list CommitInfo) : Git :=
  {| git_branch := git_branch git; git_head := git_head git;
     git_version_tags := git_version_tags git;
     git_tags_merged := git_tags_merged git;
     git_log := log;
     git_count := git_count git;
     git_ticks := git_ticks git;
     toLocaleString := toLocaleString git |}.

(** The same repository on another host: other timing of the count, other
    number formatting. *)
Definition with_host (git : Git) (ticks : nat) (locale : N -> string) : Git :=
  {| git_branch := git_branch git; git_head := git_head git;
     git_version_tags := git_version_tags git;
     git_tags_merged := git_tags_merged git;
     git_log := git_log git;
     git_count := git_count git;
     git_ticks := ticks;
     toLocaleString := locale |}.

Lemma dash_allowed : forall c, Str.is_dash c = true -> allowed c = true.
Proof.
  intros c H. unfold allowed. rewrite H. now rewrite !orb_true_r.
Qed.

Lemma replace_disallowed_allowed :
  forall s, string_forall allowed (replace_disallowed s) = true.
Proof.
  induction s as [|c s IH]; simpl; [reflexivity|].
  rewrite IH, andb_true_r.
  destruct (allowed c) eqn:E; [exact E | reflexivity].
Qed.

Lemma replace_disallowed_id :
  forall s, string_forall allowed s = true -> replace_disallowed s = s.
Proof.
  induction s as [|c s IH]; simpl; intros H; [reflexivity|].
  apply andb_true_iff in H as [Hc Hs].
  now rewrite Hc, IH.
Qed.

Lemma drop_dashes_allowed :
  forall p s, string_forall p s = true -> string_forall p (drop_dashes s) = true.
Proof.
  induction s as [|c s IH]; simpl; intros H; [reflexivity|].
  destruct (Str.is_dash c); [|exact H].
  apply andb_true_iff in H as [_ Hs]. now apply IH.
Qed.

Lemma drop_trailing_allowed :
  forall p s, string_forall p s = true ->
              string_forall p (drop_trailing_dashes s) = true.
Proof.
  induction s as [|c s IH]; simpl; intros H; [reflexivity|].
  apply andb_true_iff in H as [Hc Hs].
  destruct (Str.is_dash c && all_dashes s); simpl; [reflexivity|].
  now rewrite Hc, IH.
Qed.

Lemma drop_dashes_head : forall s, starts_with_dash (drop_dashes s) = false.
Proof.
  induction s as [|c s IH]; simpl; [reflexivity|].
  destruct (Str.is_dash c) eqn:E; [exact IH | simpl; exact E].
Qed.

Lemma drop_trailing_head :
  forall s, starts_with_dash s = false ->
            starts_with_dash (drop_trailing_dashes s) = false.
Proof.
  destruct s as [|c s]; simpl; intros H; [reflexivity|].
  rewrite H. simpl. exact H.
Qed.

Lemma drop_trailing_empty :
  forall s, drop_trailing_dashes s = EmptyString -> all_dashes s = true.
Proof.
  destruct s as [|c s]; simpl; [reflexivity|].
  destruct (Str.is_dash c && all_dashes s); [reflexivity | discriminate].
Qed.

Lemma drop_trailing_last :
  forall s, ends_with_dash (drop_trailing_dashes s) = false.
Proof.
  induction s as [|c s IH]; simpl; [reflexivity|].
  destruct (Str.is_dash c && all_dashes s) eqn:E; [reflexivity|].
  simpl. destruct (drop_trailing_dashes s) eqn:D; [|exact IH].
  apply drop_trailing_empty in D. rewrite D, andb_true_r in E. exact E.
Qed.

Lemma all_dashes_last :
  forall c s, all_dashes (String c s) = true -> ends_with_dash (String c s) = true.
Proof.
  intros c s; revert c.
  induction s as [|d s IH]; intros c H; simpl in H;
    apply andb_true_iff in H as [Hc Hs].
  - exact Hc.
  - change (ends_with_dash (String d s) = true). now apply IH.
Qed.

Lemma drop_trailing_id :
  forall s, ends_with_dash s = false -> drop_trailing_dashes s = s.
Proof.
  induction s as [|c s IH]; intros H; [reflexivity|].
  cbn [drop_trailing_dashes].
  destruct (Str.is_dash c && all_dashes s) eqn:E.
  - change (all_dashes (String c s) = true) in E.
    apply all_dashes_last in E. congruence.
  - f_equal. apply IH. destruct s; [reflexivity | exact H].
Qed.

Lemma drop_dashes_id :
  forall s, starts_with_dash s = false -> drop_dashes s = s.
Proof.
  destruct s as [|c s]; simpl; intros H; [reflexivity | now rewrite H].
Qed.

(** C7. Sanitizing a branch name is a total function, sanitizing twice is
    sanitizing once, and the result has only characters of [A-Za-z0-9-] and
    neither starts nor ends with a dash. *)
Theorem sanitize_idempotent_and_clean :
  forall s : string,
    sanitize (sanitize s) = sanitize s
    /\ string_forall allowed (sanitize s) = true
    /\ starts_with_dash (sanitize s) = false
    /\ ends_with_dash (sanitize s) = false.
Proof.
  intros s.
  assert (A : string_forall allowed (sanitize s) = true).
  { unfold sanitize, strip_dashes.
    apply drop_trailing_allowed, drop_dashes_allowed, replace_disallowed_allowed. }
  assert (H : starts_with_dash (sanitize s) = false).
  { unfold sanitize, strip_dashes.
    apply drop_trailing_head, drop_dashes_head. }
  assert (L : ends_with_dash (sanitize s) = false).
  { unfold sanitize, strip_dashes. apply drop_trailing_last. }
  repeat split; try assumption.
  unfold sanitize at 1. rewrite (replace_disallowed_id _ A).
  unfold strip_dashes. rewrite (drop_dashes_id _ H).
  now apply drop_trailing_id.
Qed.

Example sanitize_ex1 : sanitize "feature/test@123" = "feature-test-123".
Proof. reflexivity. Qed.

Example sanitize_ex2 : sanitize "--/a--b_/" = "a--b".
Proof. reflexivity. Qed.

(** ** Properties of the aggregation *)

Lemma truthy_app_dot : forall a b, Str.truthy (a ++ "." ++ b) = true.
Proof. intros [|c a] b; reflexivity. Qed.

Lemma version_tail_truthy :
  forall s v, version_tail s = Some v -> Str.truthy v = true.
Proof.
  intros s v. unfold version_tail.
  repeat match goal with
         | |- context [match ?x with _ => _ end] => destruct x
         end; try discriminate.
  intros [= <-]. apply truthy_app_dot.
Qed.

Lemma version_at_truthy :
  forall s v, version_at s = Some v -> Str.truthy v = true.
Proof.
  intros s v. unfold version_at.
  destruct (Str.eat_char "[" s) as [r|]; [|discriminate].
  destruct (Str.eat_ci "version" r) as [r1|].
  - destruct (version_tail r1) as [v1|] eqn:E1.
    + intros [= <-]. eapply version_tail_truthy; eassumption.
    + destruct (Str.eat_ci "v" r) as [r2|]; [|discriminate].
      apply version_tail_truthy.
  - destruct (Str.eat_ci "v" r) as [r2|]; [|discriminate].
    apply version_tail_truthy.
Qed.

(** The capture group of the explicit-version pattern is never empty. *)
Lemma exec_truthy :
  forall m v, VERSION_SET_PATTERN_exec m = Some v -> Str.truthy v = true.
Proof.
  induction m as [|c m IH]; intros v; cbn [VERSION_SET_PATTERN_exec].
  - destruct (version_at "") eqn:E; [|discriminate].
    intros [= <-]. eapply version_at_truthy; eassumption.
  - destruct (version_at (String c m)) eqn:E.
    + intros [= <-]. eapply version_at_truthy; eassumption.
    + apply IH.
Qed.

Lemma count_intent_nil : forall p f, count_intent p f [] = 0.
Proof. reflexivity. Qed.

Lemma count_intent_cons :
  forall p f c l,
    count_intent p f (c :: l) =
    (if f (spec_classify p (message c)) then 1 else 0) + count_intent p f l.
Proof.
  intros. unfold count_intent. cbn [filter].
  destruct (f (spec_classify p (message c))); cbn [length]; lia.
Qed.

Lemma count_intent_le :
  forall p l,
    count_intent p is_major l + count_intent p is_minor l
    + count_intent p is_patch l <= N.of_nat (length l).
Proof.
  intros p l. induction l as [|c l IH].
  - rewrite !count_intent_nil. cbn. lia.
  - rewrite !count_intent_cons. cbn [length].
    destruct (spec_classify p (message c)); cbn [is_major is_minor is_patch]; lia.
Qed.

(** The loop of [analyzeCommitBumps] from any tally. *)
Lemma analyze_loop_spec :
  forall p commits bumps,
    analyze_loop p bumps commits =
    {| b_major := b_major bumps
                  + count_intent p is_major (newer_than_explicit p commits);
       b_minor := b_minor bumps
                  + count_intent p is_minor (newer_than_explicit p commits);
       b_patch := b_patch bumps
                  + count_intent p is_patch (newer_than_explicit p commits);
       explicitVersion :=
         match newest_explicit p commits with
         | Some v => Some v
         | None => explicitVersion bumps
         end |}.
Proof.
  intros p commits. induction commits as [|c older IH]; intros bumps.
  - cbn. rewrite !N.add_0_r. now destruct bumps.
  - cbn [analyze_loop newer_than_explicit newest_explicit].
    destruct (VERSION_SET_PATTERN_exec (message c)) as [v|] eqn:E.
    + assert (C : spec_classify p (message c) = Explicit v)
        by (unfold spec_classify; now rewrite E).
      rewrite C, (exec_truthy _ E). cbn [is_explicit].
      rewrite !count_intent_nil, !N.add_0_r. reflexivity.
    + assert (C : spec_classify p (message c) =
                  if test_opt (p_major p) (message c) then Major
                  else if test_opt (p_minor p) (message c) then Minor
                  else if test_opt (p_patch p) (message c) then Patch
                  else NoIntent)
        by (unfold spec_classify; now rewrite E).
      rewrite IH. unfold count_bump.
      destruct (test_opt (p_major p) (message c));
        [|destruct (test_opt (p_minor p) (message c));
          [|destruct (test_opt (p_patch p) (message c))]];
        rewrite C; cbn [is_explicit]; rewrite !count_intent_cons, C;
        cbn [is_major is_minor is_patch
             b_major b_minor b_patch explicitVersion];
        f_equal; lia.
Qed.

(** C2. Over a newest-first sequence the aggregation counts every commit
    newer than the newest explicit-version commit in exactly one category,
    the first of major, minor, patch that its message matches, so the three
    counters together never exceed the number of those commits; it records
    the version of the newest explicit-version commit; commits older than
    that commit contribute nothing. *)
Theorem analyzeCommitBumps_first_match_until_explicit :
  forall (patterns : Patterns) (commits : list CommitInfo),
    let tally := analyzeCommitBumps commits patterns in
    let newer := newer_than_explicit patterns commits in
    b_major tally = count_intent patterns is_major newer
    /\ b_minor tally = count_intent patterns is_minor newer
    /\ b_patch tally = count_intent patterns is_patch newer
    /\ explicitVersion tally = newest_explicit patterns commits
    /\ b_major tally + b_minor tally + b_patch tally <= N.of_nat (length newer)
    /\ (forall c older older',
          commits = (newer ++ c :: older)%list ->
          analyzeCommitBumps (newer ++ c :: older') patterns = tally).
Proof.
  intros patterns commits tally newer. subst tally newer.
  unfold analyzeCommitBumps. rewrite analyze_loop_spec.
  cbn [b_major b_minor b_patch explicitVersion no_bumps]. rewrite !N.add_0_l.
  repeat split.
  - now destruct (newest_explicit patterns commits).
  - apply count_intent_le.
  - intros c older older' Hc. rewrite analyze_loop_spec.
    cbn [b_major b_minor b_patch explicitVersion no_bumps]. rewrite !N.add_0_l.
    assert (P : forall l c' o,
               l = (newer_than_explicit patterns l ++ c' :: o)%list ->
               forall o',
                 newer_than_explicit patterns
                   (newer_than_explicit patterns l ++ c' :: o')
                 = newer_than_explicit patterns l
                 /\ newest_explicit patterns
                      (newer_than_explicit patterns l ++ c' :: o')
                    = newest_explicit patterns l).
    { induction l as [|x l IHl]; intros c' o Hl o'.
      - discriminate.
      - cbn [newer_than_explicit newest_explicit] in *.
        destruct (spec_classify patterns (message x)) eqn:Ex;
          cbn [is_explicit] in *;
          try (injection Hl as Hl; destruct (IHl _ _ Hl o') as [A B];
               cbn [app newer_than_explicit newest_explicit];
               rewrite Ex; cbn [is_explicit]; now rewrite A, B).
        cbn [app] in *. injection Hl as -> _.
        cbn [newer_than_explicit newest_explicit]. rewrite Ex. now cbn. }
    destruct (P _ _ _ Hc older') as [A B]. now rewrite A, B.
Qed.

Lemma analyzeCommitBumps_first_match_until_explicit_witness :
  analyzeCommitBumps
    ([commit_of "c4" "[minor] [patch] d"; commit_of "c3" "[major] [minor] c"]
     ++ commit_of "c2" "[major] [v:3.1.4] b" :: [])
    default_patterns
  = analyzeCommitBumps
      [commit_of "c4" "[minor] [patch] d"; commit_of "c3" "[major] [minor] c";
       commit_of "c2" "[major] [v:3.1.4] b"; commit_of "c1" "[major] a";
       commit_of "c0" "[version:1.0.0]"]
      default_patterns.
Proof.
  apply (analyzeCommitBumps_first_match_until_explicit
           default_patterns
           [commit_of "c4" "[minor] [patch] d"; commit_of "c3" "[major] [minor] c";
            commit_of "c2" "[major] [v:3.1.4] b"; commit_of "c1" "[major] a";
            commit_of "c0" "[version:1.0.0]"])
    with (c := commit_of "c2" "[major] [v:3.1.4] b")
         (older := [commit_of "c1" "[major] a"; commit_of "c0" "[version:1.0.0]"]).
  reflexivity.
Defined.

(** ** The pattern of the targeted scan *)

(** Under [-E] the escaped bars are literal: the pattern is one literal
    text, not five alternatives. *)
Example grep_pattern_is_one_literal :
  grep_alternatives BUMP_GREP_PATTERN ""
  = ["[major]|[minor]|[patch]|[version:|[v:"].
Proof. reflexivity. Qed.

Example grep_skips_a_marker :
  grep_match BUMP_GREP_PATTERN "[minor] add feature" = false
  /\ grep_match BUMP_GREP_PATTERN "see [MAJOR]|[minor]|[patch]|[version:|[v: here"
     = true.
Proof. split; reflexivity. Qed.

(** ** The output of git log *)

Lemma str_app_assoc :
  forall a b c : string, (a ++ b) ++ c = a ++ b ++ c.
Proof.
  induction a as [|x a IH]; intros b c; cbn [append]; [reflexivity|].
  now rewrite IH.
Qed.

Lemma str_app_nil_l : forall a : string, "" ++ a = a.
Proof. reflexivity. Qed.

Lemma str_app_nil_r : forall a : string, a ++ "" = a.
Proof.
  induction a as [|x a IH]; cbn [append]; [reflexivity | now rewrite IH].
Qed.

(** Induction on a string that is read two characters at a time. *)
Lemma string_pair_ind :
  forall P : string -> Prop,
    P "" ->
    (forall a, P (String a "")) ->
    (forall a b r, P r -> P (String b r) -> P (String a (String b r))) ->
    forall s, P s.
Proof.
  intros P H0 H1 H2 s.
  assert (G : P s /\ forall a, P (String a s)).
  { induction s as [|b r [IHr IHbr]].
    - split; [exact H0 | exact H1].
    - split; [apply IHbr | intros a; apply H2; [exact IHr | apply IHbr]]. }
  apply G.
Qed.

Lemma has_nul_app :
  forall a b, Str.has_nul (a ++ b) = Str.has_nul a || Str.has_nul b.
Proof.
  induction a as [|x a IH]; intros b; cbn [append Str.has_nul]; [reflexivity|].
  now rewrite IH, orb_assoc.
Qed.

Lemma has_nul_without_nul : forall s, Str.has_nul (Str.without_nul s) = false.
Proof.
  induction s as [|c s IH]; [reflexivity|].
  cbn [Str.without_nul]. destruct (Str.is_nul c) eqn:E; [exact IH|].
  cbn [Str.has_nul]. now rewrite E, IH.
Qed.

Lemma space_is_not_nul : forall c, Str.is_space c = true -> Str.is_nul c = false.
Proof.
  intros c H. unfold Str.is_space, Str.is_nul in *.
  destruct (Str.code c =? 0) eqn:E; [|reflexivity].
  apply N.eqb_eq in E. rewrite E in H. discriminate.
Qed.

Lemma all_space_has_no_nul :
  forall s, Str.all_space s = true -> Str.has_nul s = false.
Proof.
  induction s as [|c s IH]; [reflexivity|].
  cbn [Str.all_space Str.has_nul]. intros H.
  apply andb_true_iff in H as [Hc Hs].
  now rewrite (space_is_not_nul _ Hc), IH.
Qed.

(** [trim] removes a prefix and a suffix without a [NUL]. *)
Lemma trim_start_prefix :
  forall s, exists ws, s = ws ++ Str.trim_start s /\ Str.has_nul ws = false.
Proof.
  induction s as [|c s [ws [E H]]].
  - exists "". split; reflexivity.
  - cbn [Str.trim_start]. destruct (Str.is_space c) eqn:C.
    + exists (String c ws). split.
      * cbn [append]. now rewrite <- E.
      * cbn [Str.has_nul]. now rewrite (space_is_not_nul _ C), H.
    + exists "". split; reflexivity.
Qed.

Lemma trim_end_suffix :
  forall s, exists ws, s = Str.trim_end s ++ ws /\ Str.has_nul ws = false.
Proof.
  induction s as [|c s [ws [E H]]].
  - exists "". split; reflexivity.
  - cbn [Str.trim_end]. destruct (Str.is_space c && Str.all_space s) eqn:C.
    + exists (String c s). split; [reflexivity|].
      apply all_space_has_no_nul. exact C.
    + exists ws. split; [cbn [append]; now rewrite <- E | exact H].
Qed.

Lemma blocks_with_nul_pair :
  forall a b r open,
    blocks_with_nul (String a (String b r)) open
    = if Str.is_nul a && Str.is_nul b
      then ((if open then 1 else 0) + blocks_with_nul r false)%nat
      else blocks_with_nul (String b r) (open || Str.is_nul a).
Proof. reflexivity. Qed.

Lemma split_nul_nul_pair :
  forall a b r cur,
    Str.split_nul_nul (String a (String b r)) cur
    = if Str.is_nul a && Str.is_nul b
      then cur :: Str.split_nul_nul r ""
      else Str.split_nul_nul (String b r) (cur ++ String a "").
Proof. reflexivity. Qed.

Lemma blocks_with_nul_step :
  forall a r open,
    Str.is_nul a = false ->
    blocks_with_nul (String a r) open = blocks_with_nul r open.
Proof.
  intros a r open H. destruct r as [|b r].
  - cbn [blocks_with_nul]. now rewrite H, orb_false_r.
  - rewrite blocks_with_nul_pair, H. cbn [andb]. now rewrite orb_false_r.
Qed.

Lemma blocks_with_nul_prefix :
  forall x s open,
    Str.has_nul x = false ->
    blocks_with_nul (x ++ s) open = blocks_with_nul s open.
Proof.
  induction x as [|a x IH]; intros s open H; [reflexivity|].
  cbn [Str.has_nul] in H. apply orb_false_iff in H as [Ha Hx].
  cbn [append]. rewrite blocks_with_nul_step by exact Ha. now apply IH.
Qed.

Lemma blocks_with_nul_suffix :
  forall x, Str.has_nul x = false ->
  forall s open, blocks_with_nul (s ++ x) open = blocks_with_nul s open.
Proof.
  intros x Hx s.
  induction s as [|a|a b r IHr IHbr] using string_pair_ind; intros open.
  - rewrite str_app_nil_l.
    rewrite <- (str_app_nil_r x) at 1. now apply blocks_with_nul_prefix.
  - cbn [append]. destruct x as [|b x']; [reflexivity|].
    pose proof Hx as Hx0.
    cbn [Str.has_nul] in Hx. apply orb_false_iff in Hx as [Hb Hx'].
    rewrite blocks_with_nul_pair, Hb, andb_false_r.
    rewrite <- (str_app_nil_r (String b x')).
    rewrite blocks_with_nul_prefix by exact Hx0.
    reflexivity.
  - change ((String a (String b r)) ++ x) with (String a (String b (r ++ x))).
    rewrite !blocks_with_nul_pair.
    destruct (Str.is_nul a && Str.is_nul b).
    + now rewrite IHr.
    + change (String b (r ++ x)) with ((String b r) ++ x).
      apply IHbr.
Qed.

Lemma blocks_with_nul_trim :
  forall s, blocks_with_nul (Str.trim s) false = blocks_with_nul s false.
Proof.
  intros s. unfold Str.trim.
  destruct (trim_start_prefix s) as [ws [E H]].
  destruct (trim_end_suffix (Str.trim_start s)) as [ws' [E' H']].
  rewrite E at 2. rewrite blocks_with_nul_prefix by exact H.
  rewrite E' at 2. now rewrite blocks_with_nul_suffix by exact H'.
Qed.

(** Every commit of the output accounts for at most one block with a
    [NUL]. *)
Lemma blocks_with_nul_log_stdout :
  forall commits open,
    (blocks_with_nul (log_stdout commits) open
     <= length commits + (if open then 1 else 0))%nat.
Proof.
  induction commits as [|c older IH]; intros open.
  - cbn [log_stdout blocks_with_nul length]. destruct open; lia.
  - cbn [log_stdout length]. unfold log_record.
    rewrite str_app_assoc.
    rewrite blocks_with_nul_prefix by apply has_nul_without_nul.
    cbn [append]. rewrite str_app_assoc. cbn [append].
    pose proof (has_nul_without_nul (message c)) as Hm.
    destruct (Str.without_nul (message c)) as [|c0 m].
    + cbn [append]. rewrite blocks_with_nul_pair.
      change (Str.is_nul Str.NUL) with true. cbn [andb].
      rewrite blocks_with_nul_step by reflexivity.
      specialize (IH false). cbv iota in IH. destruct open; lia.
    + cbn [Str.has_nul] in Hm. apply orb_false_iff in Hm as [Hc0 Hm].
      cbn [append]. rewrite blocks_with_nul_pair.
      change (Str.is_nul Str.NUL) with true. rewrite Hc0. cbn [andb].
      rewrite orb_true_r.
      rewrite blocks_with_nul_step by exact Hc0.
      rewrite blocks_with_nul_prefix by exact Hm.
      rewrite blocks_with_nul_pair.
      change (Str.is_nul Str.NUL) with true.
      change (Str.is_nul Str.LF) with false. cbn [andb orb].
      rewrite blocks_with_nul_step by reflexivity.
      specialize (IH true). cbv iota in IH. destruct open; lia.
Qed.

Lemma split_nul_nul_blocks :
  forall s cur,
    length (filter Str.has_nul (Str.split_nul_nul s cur))
    = blocks_with_nul s (Str.has_nul cur).
Proof.
  intros s.
  induction s as [|a|a b r IHr IHbr] using string_pair_ind; intros cur.
  - cbn [Str.split_nul_nul blocks_with_nul filter].
    destruct (Str.has_nul cur); reflexivity.
  - cbn [Str.split_nul_nul blocks_with_nul filter].
    rewrite has_nul_app. cbn [Str.has_nul]. rewrite orb_false_r.
    destruct (Str.has_nul cur || Str.is_nul a); reflexivity.
  - rewrite split_nul_nul_pair, blocks_with_nul_pair.
    destruct (Str.is_nul a && Str.is_nul b).
    + pose proof (IHr "") as E. cbn [Str.has_nul] in E.
      cbn [filter]. rewrite <- E.
      destruct (Str.has_nul cur); reflexivity.
    + rewrite IHbr, has_nul_app. cbn [Str.has_nul]. now rewrite orb_false_r.
Qed.

Lemma split_nul_without_nul :
  forall s cur, Str.has_nul s = false -> Str.split_nul s cur = [cur ++ s].
Proof.
  induction s as [|a s IH]; intros cur H.
  - cbn [Str.split_nul]. now rewrite str_app_nil_r.
  - cbn [Str.has_nul] in H. apply orb_false_iff in H as [Ha Hs].
    cbn [Str.split_nul]. rewrite Ha, IH by exact Hs.
    now rewrite str_app_assoc.
Qed.

(** A block gives a commit only when it holds a [NUL]. *)
Lemma parse_block_has_nul :
  forall block c, parse_block block = Some c -> Str.has_nul block = true.
Proof.
  intros block c H. destruct (Str.has_nul block) eqn:E; [reflexivity|].
  unfold parse_block in H. rewrite split_nul_without_nul in H by exact E.
  discriminate.
Qed.

Lemma parse_blocks_length :
  forall blocks,
    (length (parse_blocks blocks) <= length (filter Str.has_nul blocks))%nat.
Proof.
  induction blocks as [|b blocks IH]; [apply le_n|].
  cbn [parse_blocks filter].
  destruct (parse_block b) as [c|] eqn:E.
  - rewrite (parse_block_has_nul _ E). cbn [length]. lia.
  - destruct (Str.has_nul b); cbn [length]; lia.
Qed.

Lemma filter_filter_length :
  forall A (f g : A -> bool) l,
    (length (filter f (filter g l)) <= length (filter f l))%nat.
Proof.
  intros A f g l. induction l as [|x l IH]; [apply le_n|].
  cbn [filter]. destruct (g x), (f x) eqn:F; cbn [filter length];
    rewrite ?F; cbn [length]; lia.
Qed.

(** Without a commit whose message is empty the output holds no two
    [NUL]s in a row: it is one block. *)
Lemma blocks_with_nul_one_block :
  forall commits open,
    forallb (fun c => Str.truthy (Str.without_nul (message c))) commits = true ->
    (blocks_with_nul (log_stdout commits) open <= 1)%nat.
Proof.
  induction commits as [|c older IH]; intros open H.
  - cbn [log_stdout blocks_with_nul]. destruct open; lia.
  - cbn [forallb] in H. apply andb_true_iff in H as [Hc Holder].
    cbn [log_stdout]. unfold log_record.
    rewrite str_app_assoc.
    rewrite blocks_with_nul_prefix by apply has_nul_without_nul.
    cbn [append]. rewrite str_app_assoc. cbn [append].
    pose proof (has_nul_without_nul (message c)) as Hm.
    destruct (Str.without_nul (message c)) as [|c0 m]; [discriminate|].
    cbn [Str.has_nul] in Hm. apply orb_false_iff in Hm as [Hc0 Hm].
    cbn [append]. rewrite blocks_with_nul_pair.
    change (Str.is_nul Str.NUL) with true. rewrite Hc0. cbn [andb].
    rewrite orb_true_r.
    rewrite blocks_with_nul_step by exact Hc0.
    rewrite blocks_with_nul_prefix by exact Hm.
    rewrite blocks_with_nul_pair.
    change (Str.is_nul Str.NUL) with true.
    change (Str.is_nul Str.LF) with false. cbn [andb orb].
    rewrite blocks_with_nul_step by reflexivity.
    now apply IH.
Qed.

Lemma parse_log_blocks :
  forall output,
    (length (parse_log output) <= blocks_with_nul output false)%nat.
Proof.
  intros output. unfold parse_log.
  destruct (Str.truthy output); [|cbn [length]; lia].
  unfold commit_blocks.
  etransitivity; [apply parse_blocks_length|].
  etransitivity; [apply filter_filter_length|].
  now rewrite split_nul_nul_blocks.
Qed.

(** The engine reads at most one commit for every commit git lists. *)
Lemma parse_log_length :
  forall commits,
    (length (parse_log (Str.trim (log_stdout commits))) <= length commits)%nat.
Proof.
  intros commits.
  etransitivity; [apply parse_log_blocks|].
  rewrite blocks_with_nul_trim.
  pose proof (blocks_with_nul_log_stdout commits false) as B.
  cbv iota in B. lia.
Qed.

Lemma parse_log_one_commit :
  forall commits,
    forallb (fun c => Str.truthy (Str.without_nul (message c))) commits = true ->
    (length (parse_log (Str.trim (log_stdout commits))) <= 1)%nat.
Proof.
  intros commits H.
  etransitivity; [apply parse_log_blocks|].
  rewrite blocks_with_nul_trim.
  now apply blocks_with_nul_one_block.
Qed.

Lemma forallb_firstn :
  forall A (p : A -> bool) n l,
    forallb p l = true -> forallb p (firstn n l) = true.
Proof.
  intros A p n. induction n as [|n IH]; intros [|x l] H; try reflexivity.
  cbn [firstn forallb] in *. apply andb_true_iff in H as [Hx Hl].
  now rewrite Hx, IH.
Qed.

Lemma forallb_filter :
  forall A (p f : A -> bool) l,
    forallb p l = true -> forallb p (filter f l) = true.
Proof.
  intros A p f l. induction l as [|x l IH]; intros H; [reflexivity|].
  cbn [forallb] in H. apply andb_true_iff in H as [Hx Hl].
  cbn [filter]. destruct (f x); cbn [forallb]; [now rewrite Hx, IH | now apply IH].
Qed.

(** ** Runs of the engine *)

Section Runs.

Variable Obs : Type.
Variable git : Git.

Local Abbreviation returns := (@returns Obs _) (only parsing).

Lemma returns_ret : forall A (a : A), returns (ret (Obs := Obs) a) a.
Proof. intros A a w. reflexivity. Qed.

Lemma returns_ret_eq :
  forall A (a b : A), a = b -> returns (ret (Obs := Obs) a) b.
Proof. intros A a b <- w. reflexivity. Qed.

Lemma returns_bind :
  forall A B (m : M Obs A) (k : A -> M Obs B) a b,
    returns m a -> returns (k a) b -> returns (bind m k) b.
Proof.
  intros A B m k a b Hm Hk w. unfold bind.
  specialize (Hm w). destruct (m w) as [a' w']. simpl in Hm. subst a'.
  apply Hk.
Qed.

Lemma returns_progress : forall cb msg, returns (progress (Obs := Obs) cb msg) tt.
Proof. intros cb msg w. reflexivity. Qed.

Lemma returns_progress_opt :
  forall cb msg, returns (progress_opt (Obs := Obs) cb msg) tt.
Proof. intros [cb|] msg w; reflexivity. Qed.

Lemma returns_gitExec :
  forall A dir cmd (a : A), returns (gitExec (Obs := Obs) dir cmd a) a.
Proof. intros A dir cmd a w. reflexivity. Qed.

Lemma returns_tick_loop :
  forall cb label n dots, returns (tick_loop (Obs := Obs) cb label n dots) tt.
Proof.
  intros cb label n. induction n as [|n IH]; intros dots.
  - apply returns_ret.
  - cbn [tick_loop]. eapply returns_bind; [apply returns_progress | apply IH].
Qed.

Lemma returns_ticks :
  forall (cb : option (Callback Obs)) label,
    returns (match cb with
             | Some f => tick_loop f label (git_ticks git) 0
             | None => ret tt
             end) tt.
Proof.
  intros [f|] label; [apply returns_tick_loop | apply returns_ret].
Qed.

Lemma returns_countCommits :
  forall dir from to cb,
    returns (countCommits git dir from to cb) (git_count git (from ++ ".." ++ to)).
Proof.
  intros. unfold countCommits.
  eapply returns_bind; [apply returns_gitExec|].
  eapply returns_bind; [apply returns_ticks | apply returns_ret].
Qed.

Lemma returns_countAllCommits :
  forall dir cb, returns (countAllCommits git dir cb) (git_count git "HEAD").
Proof.
  intros. unfold countAllCommits.
  eapply returns_bind; [apply returns_gitExec|].
  eapply returns_bind; [apply returns_ticks | apply returns_ret].
Qed.

Lemma returns_getCurrentBranch :
  forall dir,
    returns (getCurrentBranch (Obs := Obs) git dir)
            (if Str.truthy (git_branch git) then git_branch git else "unknown").
Proof.
  intros. unfold getCurrentBranch.
  eapply returns_bind; [apply returns_gitExec | apply returns_ret].
Qed.

Lemma returns_getLastVersionTag :
  forall dir prefix head,
    returns (getLastVersionTag (Obs := Obs) git dir head
                               (git_version_tags git prefix))
            (last_tag_value git prefix head).
Proof.
  intros. unfold getLastVersionTag, last_tag_value.
  destruct (git_version_tags git prefix) as [|t ts]; [apply returns_ret|].
  eapply returns_bind; [apply returns_gitExec|].
  destruct (filter Str.truthy (git_tags_merged git head));
    apply returns_ret.
Qed.

Lemma returns_getCommitMessages :
  forall dir from to limit,
    returns (getCommitMessages (Obs := Obs) git dir from to limit)
            (parse_log
               (Str.trim (log_stdout
                  (match limit with
                   | Some l => if (l =? 0)%Z then git_log git (log_range from to)
                               else firstn (Z.to_nat l) (git_log git (log_range from to))
                   | None => git_log git (log_range from to)
                   end)))).
Proof.
  intros. unfold getCommitMessages, parse_log.
  eapply returns_bind; [apply returns_gitExec|].
  destruct limit as [l|]; [destruct (l =? 0)%Z|];
    match goal with
    | |- context [if Str.truthy ?o then _ else _] => destruct (Str.truthy o)
    end; apply returns_ret.
Qed.

Lemma skipn_shorter :
  forall A n (l : list A), (0 < n)%nat -> l <> [] ->
                           (length (skipn n l) < length l)%nat.
Proof.
  intros A n l Hn Hl. rewrite length_skipn.
  destruct l; [congruence | cbn [length]; lia].
Qed.

Lemma parse_blocks_app :
  forall a b, parse_blocks (a ++ b) = (parse_blocks a ++ parse_blocks b)%list.
Proof.
  induction a as [|x a IH]; intros b; [reflexivity|].
  cbn [app parse_blocks]. rewrite IH.
  destruct (parse_block x); reflexivity.
Qed.

(** With one unit of fuel for every block the chunked loop parses them
    all. *)
Lemma returns_parse_chunks :
  forall fuel toLocale cb total i rest acc,
    (length rest <= fuel)%nat ->
    returns (parse_chunks (Obs := Obs) fuel toLocale cb total i rest acc)
            (acc ++ parse_blocks rest)%list.
Proof.
  induction fuel as [|fuel IH]; intros toLocale cb total i rest acc Hlen.
  - destruct rest; [|simpl in Hlen; lia].
    cbn [parse_chunks]. apply returns_ret_eq. simpl. now rewrite app_nil_r.
  - destruct rest as [|c rest'].
    + cbn [parse_chunks]. apply returns_ret_eq. simpl. now rewrite app_nil_r.
    + cbn [parse_chunks].
      eapply returns_bind; [apply returns_progress_opt|].
      set (l := c :: rest') in *.
      assert (Hs : (length (skipn PARSE_CHUNK_SIZE l) <= fuel)%nat).
      { assert (length (skipn PARSE_CHUNK_SIZE l) < length l)%nat.
        { apply skipn_shorter; [unfold PARSE_CHUNK_SIZE; lia | subst l; discriminate]. }
        lia. }
      intros w. rewrite (IH _ _ _ _ _ _ Hs w).
      rewrite <- app_assoc, <- parse_blocks_app. now rewrite firstn_skipn.
Qed.

Lemma returns_getCommitsWithBumps :
  forall dir from to cb,
    returns (getCommitsWithBumps git dir from to cb)
            (parse_log
               (Str.trim (log_stdout
                  (grep_commits (git_log git (log_range from to)))))).
Proof.
  intros. unfold getCommitsWithBumps, parse_log.
  eapply returns_bind; [apply returns_progress_opt|].
  eapply returns_bind; [apply returns_gitExec|].
  destruct (Str.truthy _); cbn [negb].
  - destruct (commit_blocks _) as [|b bs] eqn:E.
    + eapply returns_bind; [apply returns_progress_opt | apply returns_ret].
    + eapply returns_bind; [apply returns_progress_opt|].
      eapply returns_bind; [apply returns_parse_chunks; apply le_n|].
      eapply returns_bind; [apply returns_progress_opt | apply returns_ret].
  - eapply returns_bind; [apply returns_progress_opt | apply returns_ret].
Qed.

Lemma returns_scan_commits :
  forall dir cb scan last head,
    returns (scan_commits git dir cb scan last head)
            (scan_value git scan last head).
Proof.
  intros. unfold scan_commits, scan_value.
  destruct scan as [maxScan|].
  - eapply returns_bind; [apply returns_progress|].
    intros w. rewrite returns_getCommitMessages.
    unfold exhaustive_commits, history.
    destruct (0 <? maxScan)%Z eqn:E; [|reflexivity].
    apply Z.ltb_lt in E.
    destruct (maxScan =? 0)%Z eqn:E0; [apply Z.eqb_eq in E0; lia | reflexivity].
  - eapply returns_bind; [apply returns_progress|].
    eapply returns_bind; [apply returns_getCommitsWithBumps|].
    eapply returns_bind; [apply returns_progress | apply returns_ret].
Qed.

Lemma returns_report_bumps :
  forall cb bumps, returns (report_bumps (Obs := Obs) cb bumps) tt.
Proof.
  intros. unfold report_bumps.
  destruct (explicit_truthy bumps); [apply returns_progress|].
  destruct (_ || _); [apply returns_progress | apply returns_ret].
Qed.

Lemma returns_count_since :
  forall dir cb scan commits last head,
    returns (count_since git dir cb scan commits last head)
            (count_value git scan commits last head).
Proof.
  intros. unfold count_since, count_value.
  destruct last as [t|].
  - eapply returns_bind
      with (a := if length_is_count scan commits
                 then N.of_nat (length commits)
                 else git_count git (commit t ++ ".." ++ head)).
    + destruct (length_is_count scan commits); [apply returns_ret|].
      eapply returns_bind; [apply returns_countCommits|].
      eapply returns_bind; [apply returns_progress | apply returns_ret].
    + eapply returns_bind; [apply returns_progress | apply returns_ret].
  - eapply returns_bind; [apply returns_progress|].
    destruct (length_is_count scan commits); [apply returns_ret|].
    eapply returns_bind; [apply returns_countAllCommits|].
    eapply returns_bind; [apply returns_progress | apply returns_ret].
Qed.

(** A run returns [version_value], whatever the callback does and
    whatever was observed or issued before. *)
Lemma returns_calculateVersion :
  forall options,
    returns (calculateVersion git options)
            (version_value git (config_of options)).
Proof.
  intros options. unfold calculateVersion.
  eapply returns_bind; [apply returns_progress|].
  eapply returns_bind; [apply returns_getCurrentBranch|].
  eapply returns_bind; [apply returns_gitExec|].
  eapply returns_bind; [apply returns_progress|].
  eapply returns_bind; [apply returns_progress|].
  eapply returns_bind; [apply returns_gitExec|].
  eapply returns_bind.
  { destruct (git_version_tags git _); apply returns_progress. }
  eapply returns_bind; [apply returns_getLastVersionTag|].
  eapply returns_bind.
  { instantiate
      (1 := (fetched_commits git (config_of options),
             commitBumps (version_value git (config_of options)))).
    unfold version_value, fetched_commits. cbn [commitBumps].
    change (enabled_of (with_callback (config_of options) None))
      with (enabled_of options).
    change (mainBranches_of (with_callback (config_of options) None))
      with (mainBranches_of options).
    change (bumpPatterns_of (with_callback (config_of options) None))
      with (bumpPatterns_of options).
    cbn [config_of c_tagPrefix c_maxCommitScan].
    destruct (enabled_of options && _); [|apply returns_ret].
    eapply returns_bind; [apply returns_scan_commits|].
    eapply returns_bind; [apply returns_report_bumps | apply returns_ret]. }
  cbn [fst snd].
  eapply returns_bind; [apply returns_count_since|].
  eapply returns_bind; [apply returns_progress|].
  apply returns_ret_eq. reflexivity.
Qed.

End Runs.

(** ** The commands a run issues *)

Section Commands.

Variable Obs : Type.
Variable git : Git.

Local Abbreviation quiet := (@fetches_no_messages Obs _) (only parsing).

Lemma quiet_ret : forall A (a : A), quiet (ret a).
Proof.
  intros A a w. exists []. cbn. now rewrite app_nil_r.
Qed.

Lemma quiet_bind_value :
  forall A B (m : M Obs A) (k : A -> M Obs B) a,
    returns m a -> quiet m -> quiet (k a) -> quiet (bind m k).
Proof.
  intros A B m k a Hr Hm Hk w. unfold bind.
  specialize (Hr w). destruct (Hm w) as [l1 [E1 F1]].
  destruct (m w) as [a' w']. cbn in Hr, E1. subst a'.
  destruct (Hk w') as [l2 [E2 F2]].
  exists (l1 ++ l2)%list. split.
  - now rewrite E2, E1, app_assoc.
  - rewrite forallb_app, F1, F2. reflexivity.
Qed.

Lemma quiet_bind :
  forall A B (m : M Obs A) (k : A -> M Obs B),
    quiet m -> (forall a, quiet (k a)) -> quiet (bind m k).
Proof.
  intros A B m k Hm Hk w. unfold bind.
  destruct (Hm w) as [l1 [E1 F1]].
  destruct (m w) as [a w']. cbn in E1.
  destruct (Hk a w') as [l2 [E2 F2]].
  exists (l1 ++ l2)%list. split.
  - now rewrite E2, E1, app_assoc.
  - rewrite forallb_app, F1, F2. reflexivity.
Qed.

Lemma quiet_progress : forall cb msg, quiet (progress cb msg).
Proof.
  intros cb msg w. exists []. cbn. now rewrite app_nil_r.
Qed.

Lemma quiet_gitExec :
  forall A dir cmd (a : A), is_log cmd = false -> quiet (gitExec dir cmd a).
Proof.
  intros A dir cmd a H w. exists [(dir, cmd)]. cbn. split; [reflexivity|].
  unfold not_a_log. cbn. now rewrite H.
Qed.

Lemma quiet_tick_loop :
  forall cb label n dots, quiet (tick_loop cb label n dots).
Proof.
  intros cb label n. induction n as [|n IH]; intros dots.
  - apply quiet_ret.
  - cbn [tick_loop]. apply quiet_bind; [apply quiet_progress | intros _; apply IH].
Qed.

Lemma quiet_countCommits :
  forall dir from to cb, quiet (countCommits git dir from to cb).
Proof.
  intros. unfold countCommits.
  apply quiet_bind; [now apply quiet_gitExec | intros n].
  apply quiet_bind; [|intros _; apply quiet_ret].
  destruct cb; [apply quiet_tick_loop | apply quiet_ret].
Qed.

Lemma quiet_countAllCommits :
  forall dir cb, quiet (countAllCommits git dir cb).
Proof.
  intros. unfold countAllCommits.
  apply quiet_bind; [now apply quiet_gitExec | intros n].
  apply quiet_bind; [|intros _; apply quiet_ret].
  destruct cb; [apply quiet_tick_loop | apply quiet_ret].
Qed.

Lemma quiet_getLastVersionTag :
  forall dir head tags, quiet (getLastVersionTag git dir head tags).
Proof.
  intros. unfold getLastVersionTag.
  destruct tags; [apply quiet_ret|].
  apply quiet_bind; [now apply quiet_gitExec | intros out].
  destruct (filter Str.truthy out); apply quiet_ret.
Qed.

Lemma quiet_count_since :
  forall dir cb scan commits last head,
    quiet (count_since git dir cb scan commits last head).
Proof.
  intros. unfold count_since.
  destruct last as [t|].
  - apply quiet_bind.
    + destruct (length_is_count scan commits); [apply quiet_ret|].
      apply quiet_bind; [apply quiet_countCommits | intros n].
      apply quiet_bind; [apply quiet_progress | intros _; apply quiet_ret].
    + intros n.
      apply quiet_bind; [apply quiet_progress | intros _; apply quiet_ret].
  - apply quiet_bind; [apply quiet_progress | intros _].
    destruct (length_is_count scan commits); [apply quiet_ret|].
    apply quiet_bind; [apply quiet_countAllCommits | intros n].
    apply quiet_bind; [apply quiet_progress | intros _; apply quiet_ret].
Qed.

(** Without the bump analysis a run reads no commit messages. *)
Lemma quiet_calculateVersion :
  forall options,
    enabled_of options
    && isMainBranch (version_value git (config_of options)) = false ->
    quiet (calculateVersion git options).
Proof.
  intros options H. unfold calculateVersion.
  apply quiet_bind; [apply quiet_progress | intros _].
  eapply quiet_bind_value;
    [apply returns_getCurrentBranch
    | apply quiet_bind; [now apply quiet_gitExec | intros b; apply quiet_ret]
    |].
  eapply quiet_bind_value;
    [apply returns_gitExec | now apply quiet_gitExec |].
  apply quiet_bind; [apply quiet_progress | intros _].
  apply quiet_bind; [apply quiet_progress | intros _].
  apply quiet_bind; [now apply quiet_gitExec | intros tags].
  apply quiet_bind;
    [destruct tags; apply quiet_progress | intros _].
  apply quiet_bind; [apply quiet_getLastVersionTag | intros last].
  unfold version_value in H. cbn [isMainBranch] in H.
  change (mainBranches_of (with_callback (config_of options) None))
    with (mainBranches_of options) in H.
  rewrite H.
  apply quiet_bind; [apply quiet_ret | intros scanned].
  apply quiet_bind; [apply quiet_count_since | intros n].
  apply quiet_bind; [apply quiet_progress | intros _; apply quiet_ret].
Qed.

End Commands.

(** ** Properties of the version *)

Lemma analyze_explicit_truthy :
  forall p commits v,
    explicitVersion (analyzeCommitBumps commits p) = Some v ->
    explicit_truthy (analyzeCommitBumps commits p) = true.
Proof.
  intros p commits v H. unfold explicit_truthy. rewrite H.
  unfold analyzeCommitBumps in H. rewrite analyze_loop_spec in H.
  cbn [explicitVersion no_bumps] in H.
  destruct (newest_explicit p commits) as [v'|] eqn:E; [|discriminate].
  injection H as ->. clear - E.
  induction commits as [|c older IH]; [discriminate|].
  cbn [newest_explicit] in E. unfold spec_classify in E.
  destruct (VERSION_SET_PATTERN_exec (message c)) as [u|] eqn:X.
  - injection E as ->. eapply exec_truthy; eassumption.
  - apply IH.
    destruct (test_opt (p_major p) (message c)); [exact E|].
    destruct (test_opt (p_minor p) (message c)); [exact E|].
    destruct (test_opt (p_patch p) (message c)); exact E.
Qed.

(** C1. On a trunk branch with commit bumps enabled, when the tally of the
    run carries an explicit version, the version of the run is exactly that
    explicit version, whatever the bump counts, the baseline tag and the
    commit count are. *)
Theorem explicit_version_wins :
  forall (Obs : Type) (git : Git) (options : ProspectorOptions Obs)
         (w : World Obs) (v : string),
    let info := fst (calculateVersion git options w) in
    isMainBranch info = true ->
    enabled_of options = true ->
    explicitVersion (commitBumps info) = Some v ->
    vi_version info = v.
Proof.
  intros Obs git options w v info Hmain Hen Hex. subst info.
  rewrite returns_calculateVersion in *.
  unfold version_value in *.
  cbn [isMainBranch commitBumps vi_version] in *.
  change (enabled_of (with_callback (config_of options) None))
    with (enabled_of options) in *.
  rewrite Hmain, Hen in *. cbn [andb] in *.
  pose proof (analyze_explicit_truthy _ _ Hex) as T.
  destruct (last_tag_value git _ (git_head git)) as [t|];
    unfold version_with_tag, version_without_tag;
    cbn [andb]; rewrite T, Hex; reflexivity.
Qed.

Lemma explicit_version_wins_witness :
  let info := fst (calculateVersion newest_jump_repo exhaustive_options world0) in
  isMainBranch info = true
  /\ enabled_of exhaustive_options = true
  /\ explicitVersion (commitBumps info) = Some "2.0.0"
  /\ vi_version info = "2.0.0".
Proof.
  split; [reflexivity|]. split; [reflexivity|]. split; [reflexivity|].
  apply (@explicit_version_wins unit newest_jump_repo exhaustive_options world0
           "2.0.0");
    reflexivity.
Defined.

(** C3. Without a tag, under the uncapped exhaustive scan, the history of
    a major commit, a commit with an empty message and a minor commit
    reaches the aggregator as a minor and a major commit and gives
    [1.1.0]: the minor count is kept next to the major bump, while the same
    commits since a tag [v0.0.0] give [1.0.0]. *)
Theorem untagged_major_bump_keeps_minor :
  let untagged := fst (calculateVersion untagged_repo exhaustive_options world0) in
  let tagged := fst (calculateVersion zero_tagged_repo exhaustive_options world0) in
  lastTag untagged = None
  /\ map (fun c => spec_classify default_patterns (message c))
         (fetched_commits untagged_repo exhaustive_config)
     = [Minor; Major]
  /\ commitBumps untagged =
     {| b_major := 1; b_minor := 1; b_patch := 0; explicitVersion := None |}
  /\ vi_version untagged = "1.1.0"
  /\ commitBumps tagged = commitBumps untagged
  /\ vi_version tagged = "1.0.0".
Proof. vm_compute. repeat split. Qed.

(** C4. With the baseline [v1.0.0], the commit ["[v:2.0.0] jump"] and two
    plain commits after it, the marker is in the range but reaches the
    aggregator under neither scanning strategy: the engine computes
    [1.0.3] under the targeted scan and [1.0.1] under the uncapped
    exhaustive scan, not [2.0.2]. *)
Theorem jump_then_two_plain_commits :
  let targeted := fst (calculateVersion jump_repo targeted_options world0) in
  let exhaustive := fst (calculateVersion jump_repo exhaustive_options world0) in
  newest_explicit default_patterns (history jump_repo (lastTag targeted) "head")
  = Some "2.0.0"
  /\ fetched_commits jump_repo default_config = []
  /\ map (fun c => spec_classify default_patterns (message c))
         (fetched_commits jump_repo exhaustive_config)
     = [NoIntent]
  /\ commitBumps targeted = no_bumps
  /\ commitBumps exhaustive = no_bumps
  /\ commitsSinceTag targeted = 3
  /\ vi_version targeted = "1.0.3"
  /\ commitsSinceTag exhaustive = 1
  /\ vi_version exhaustive = "1.0.1".
Proof. vm_compute. repeat split. Qed.




(** C6. With a custom minor pattern the targeted strategy does not fetch
    the commit that only the custom pattern recognises: its tally and
    version differ from those of the uncapped exhaustive strategy on the
    same history. *)
Theorem targeted_scan_misses_custom_pattern :
  let targeted :=
    fst (calculateVersion feat_repo
           (with_callback (with_patterns default_config feat_patterns) None)
           world0) in
  let exhaustive :=
    fst (calculateVersion feat_repo
           (with_callback (with_patterns exhaustive_config feat_patterns) None)
           world0) in
  commitBumps targeted = no_bumps
  /\ vi_version targeted = "1.0.1"
  /\ commitBumps exhaustive =
     {| b_major := 0; b_minor := 1; b_patch := 0; explicitVersion := None |}
  /\ vi_version exhaustive = "1.1.0".
Proof. vm_compute. repeat split. Qed.

(** C8, as stated: a kind that is none of major, minor, patch yields a
    version string, not an error. *)
Lemma suggest_unknown_kind_returns_string :
  fst (suggestVersionBump jump_repo semver_inc "bogus" targeted_options world0)
  = "1.0.0".
Proof. vm_compute. reflexivity. Qed.

(** C8, amended. When the increment function of the semver package rejects
    the kind, [suggestVersionBump] reports no error: it returns the version
    string [1.0.0]. *)
Theorem suggest_rejected_kind_falls_back :
  forall (Obs : Type) (git : Git) (inc : SemVer -> string -> option string)
         (kind : string) (options : ProspectorOptions Obs) (w : World Obs),
    (forall v, inc v kind = None) ->
    fst (suggestVersionBump git inc kind options w) = "1.0.0".
Proof.
  intros Obs git inc kind options w H.
  unfold suggestVersionBump, bind.
  destruct (calculateVersion git options w) as [info w'].
  rewrite H. reflexivity.
Qed.

Lemma suggest_rejected_kind_falls_back_witness :
  (forall v, semver_inc v "bogus" = None)
  /\ fst (suggestVersionBump feature_repo semver_inc "bogus" targeted_options
                             world0) = "1.0.0".
Proof.
  split.
  - intros v. reflexivity.
  - apply (@suggest_rejected_kind_falls_back unit feature_repo semver_inc
             "bogus" targeted_options world0).
    intros v. reflexivity.
Defined.

(** C9. Two runs on the same repository whose options differ only in the
    progress callback return the same [VersionInfo], whatever the callbacks
    do and whatever their observers hold. *)
Theorem progress_callback_does_not_change_result :
  forall (git : Git) (Obs1 Obs2 : Type)
         (o1 : ProspectorOptions Obs1) (o2 : ProspectorOptions Obs2)
         (w1 : World Obs1) (w2 : World Obs2),
    config_of o1 = config_of o2 ->
    fst (calculateVersion git o1 w1) = fst (calculateVersion git o2 w2).
Proof.
  intros git Obs1 Obs2 o1 o2 w1 w2 H.
  rewrite !returns_calculateVersion. now rewrite H.
Qed.

Lemma progress_callback_does_not_change_result_witness :
  config_of targeted_options
  = config_of (with_callback default_config (Some recording))
  /\ fst (calculateVersion jump_repo targeted_options world0)
     = fst (calculateVersion jump_repo
              (with_callback default_config (Some recording))
              {| obs := ["earlier"]; issued := [] |}).
Proof.
  split; [reflexivity|].
  apply (@progress_callback_does_not_change_result jump_repo unit (list string)
           targeted_options (with_callback default_config (Some recording))
           world0 {| obs := ["earlier"]; issued := [] |}).
  reflexivity.
Defined.

(** C10. When the current branch is not a trunk branch, or commit bumps are
    disabled, the run issues no command that reads commit messages and its
    tally is all zeros without an explicit version, whatever the commits in
    range contain. *)
Theorem no_analysis_off_trunk_or_disabled :
  forall (Obs : Type) (git : Git) (options : ProspectorOptions Obs)
         (w : World Obs),
    let run := calculateVersion git options w in
    isMainBranch (fst run) = false \/ enabled_of options = false ->
    commitBumps (fst run) =
      {| b_major := 0; b_minor := 0; b_patch := 0; explicitVersion := None |}
    /\ exists cmds,
         issued (snd run) = (issued w ++ cmds)%list
         /\ forallb (fun q => negb (is_log (snd q))) cmds = true.
Proof.
  intros Obs git options w run H. subst run.
  assert (G : enabled_of options
              && isMainBranch (version_value git (config_of options)) = false).
  { rewrite returns_calculateVersion in H.
    destruct H as [-> | ->]; [apply andb_false_r | reflexivity]. }
  split.
  - rewrite returns_calculateVersion.
    unfold version_value in *. cbn [commitBumps isMainBranch] in *.
    change (enabled_of (with_callback (config_of options) None))
      with (enabled_of options).
    now rewrite G.
  - apply (quiet_calculateVersion git options G w).
Qed.

Lemma no_analysis_off_trunk_or_disabled_witness :
  let run := calculateVersion feature_repo targeted_options world0 in
  isMainBranch (fst run) = false
  /\ commitBumps (fst run) = no_bumps
  /\ exists cmds,
       issued (snd run) = (issued world0 ++ cmds)%list
       /\ forallb (fun q => negb (is_log (snd q))) cmds = true.
Proof.
  split; [reflexivity|].
  apply (@no_analysis_off_trunk_or_disabled unit feature_repo targeted_options
           world0).
  left. reflexivity.
Defined.

(** ** The pattern matchers on examples *)

Example exec_v : VERSION_SET_PATTERN_exec "[v:2.0.0] jump" = Some "2.0.0".
Proof. reflexivity. Qed.

Example exec_version : VERSION_SET_PATTERN_exec "x [Version:12.0.345]" = Some "12.0.345".
Proof. reflexivity. Qed.

Example exec_none : VERSION_SET_PATTERN_exec "[v:2.0] [version:1.2.x]" = None.
Proof. reflexivity. Qed.

Example of_N_ex : Str.of_N 0 = "0" /\ Str.of_N 1203 = "1203".
Proof. split; reflexivity. Qed.

Example parse_log_one_block :
  parse_log (Str.trim (log_stdout [commit_of "c2" "b"; commit_of "c1" "a"]))
  = [commit_of "c2" "b"].
Proof. reflexivity. Qed.

Example parse_log_empty_message_splits :
  parse_log (Str.trim (log_stdout [commit_of "c3" "c"; commit_of "c2" "";
                                   commit_of "c1" "a"]))
  = [commit_of "c3" "c"; commit_of (String Str.LF "c1") "a"].
Proof. reflexivity. Qed.

Example to_double_rounds :
  to_double (2 ^ 53 + 1) = 2 ^ 53 /\ to_double (2 ^ 53 + 3) = 2 ^ 53 + 4
  /\ to_double (2 ^ 53 + 2) = 2 ^ 53 + 2.
Proof. repeat split; reflexivity. Qed.

(** ** The paths of the version composition *)

Lemma enabled_of_config :
  forall Obs (o : ProspectorOptions Obs),
    enabled_of (with_callback (Obs := unit) (config_of o) None) = enabled_of o.
Proof. reflexivity. Qed.

Lemma mainBranches_of_config :
  forall Obs (o : ProspectorOptions Obs),
    mainBranches_of (with_callback (Obs := unit) (config_of o) None)
    = mainBranches_of o.
Proof. reflexivity. Qed.

Lemma bumpPatterns_of_config :
  forall Obs (o : ProspectorOptions Obs),
    bumpPatterns_of (with_callback (Obs := unit) (config_of o) None)
    = bumpPatterns_of o.
Proof. reflexivity. Qed.

(** The fields of the result of a run, as values. *)
Ltac run_values :=
  rewrite ?returns_calculateVersion in *;
  unfold version_value in *;
  cbn [isMainBranch lastTag vi_version vi_branch commitBumps commitsSinceTag
       currentCommit] in *;
  rewrite ?enabled_of_config, ?mainBranches_of_config, ?bumpPatterns_of_config
    in *.

Lemma no_explicit_not_truthy :
  forall b, explicitVersion b = None -> explicit_truthy b = false.
Proof. intros b H. unfold explicit_truthy. now rewrite H. Qed.

Lemma to_double_exact : forall n, n <= 2 ^ 53 -> to_double n = n.
Proof.
  intros n H. unfold to_double.
  apply N.leb_le in H. now rewrite H.
Qed.

(** Below [2 ^ 53] the addition of the engine is the addition of natural
    numbers. *)
Lemma js_add_exact : forall a b, a + b <= 2 ^ 53 -> js_add a b = a + b.
Proof.
  intros a b H. unfold js_add.
  destruct (b =? 0) eqn:B; [apply N.eqb_eq in B; lia|].
  destruct (a =? 0) eqn:A; [apply N.eqb_eq in A; lia|].
  now apply to_double_exact.
Qed.

Lemma js_add_0_r : forall a, js_add a 0 = a.
Proof. reflexivity. Qed.

Lemma js_add_0_l : forall b, js_add 0 b = b.
Proof.
  intros b. unfold js_add.
  destruct (b =? 0) eqn:B; [apply N.eqb_eq in B; now subst | reflexivity].
Qed.

(** X1. On a trunk branch with a baseline tag, when commit bumps are
    disabled or the tally has no explicit version, no major and no minor
    bump, and the baseline patch number plus the commit count is at most
    [2 ^ 53], the version is the baseline with the commit count added to
    its patch number: patch markers alone are not applied. *)
Theorem trunk_fallback_adds_commit_count :
  forall (Obs : Type) (git : Git) (options : ProspectorOptions Obs)
         (w : World Obs) (t : VersionTag),
    let info := fst (calculateVersion git options w) in
    isMainBranch info = true ->
    lastTag info = Some t ->
    (enabled_of options = false
     \/ (explicitVersion (commitBumps info) = None
         /\ b_major (commitBumps info) = 0
         /\ b_minor (commitBumps info) = 0)) ->
    patch (version t) + commitsSinceTag info <= 2 ^ 53 ->
    vi_version info =
    format {| major := major (version t); minor := minor (version t);
              patch := patch (version t) + commitsSinceTag info;
              prerelease := prerelease (version t) |}.
Proof.
  intros Obs git options w t info Hmain Htag H Hb. subst info. run_values.
  rewrite Htag in *. unfold version_with_tag. rewrite Hmain in *.
  rewrite (js_add_exact _ _ Hb).
  destruct H as [Hd | (He & Hmj & Hmn)].
  - rewrite Hd. reflexivity.
  - rewrite (no_explicit_not_truthy _ He), Hmj, Hmn.
    change (0 <? 0) with false. cbn [orb].
    rewrite !andb_false_r. reflexivity.
Qed.

Lemma trunk_fallback_adds_commit_count_witness :
  let info := fst (calculateVersion newest_patch_repo newest_only_options world0) in
  b_patch (commitBumps info) = 1
  /\ commitsSinceTag info = 3
  /\ vi_version info = "1.2.3".
Proof.
  split; [reflexivity|]. split; [reflexivity|].
  apply (@trunk_fallback_adds_commit_count unit newest_patch_repo
           newest_only_options world0 (tag_at "v1.2.0" (plain_version 1 2 0)));
    [reflexivity | reflexivity | right; repeat split | vm_compute; discriminate].
Defined.

(** X2. On a trunk branch without a tag, when commit bumps are disabled or
    the tally has no explicit version, no major and no minor bump, the
    version is [0.0.<commit count>]. *)
Theorem untagged_trunk_fallback :
  forall (Obs : Type) (git : Git) (options : ProspectorOptions Obs)
         (w : World Obs),
    let info := fst (calculateVersion git options w) in
    isMainBranch info = true ->
    lastTag info = None ->
    (enabled_of options = false
     \/ (explicitVersion (commitBumps info) = None
         /\ b_major (commitBumps info) = 0
         /\ b_minor (commitBumps info) = 0)) ->
    vi_version info = "0.0." ++ Str.of_N (commitsSinceTag info).
Proof.
  intros Obs git options w info Hmain Htag H. subst info. run_values.
  rewrite Htag in *. unfold version_without_tag. rewrite Hmain in *.
  destruct H as [Hd | (He & Hmj & Hmn)].
  - rewrite Hd. reflexivity.
  - rewrite (no_explicit_not_truthy _ He), Hmj, Hmn.
    change (0 <? 0) with false. cbn [orb].
    rewrite !andb_false_r. reflexivity.
Qed.

Lemma untagged_trunk_fallback_witness :
  vi_version (fst (calculateVersion plain_untagged_repo targeted_options world0))
  = "0.0.5".
Proof.
  apply (@untagged_trunk_fallback unit plain_untagged_repo targeted_options
           world0);
    [reflexivity | reflexivity | right; repeat split].
Defined.

(** X3. On a trunk branch with a baseline tag and commit bumps enabled,
    when the tally has no explicit version and at least one major bump, and
    the baseline major number plus the major bumps is at most [2 ^ 53], the
    version is (baseline major + major bumps).0.(patch bumps): minor bumps
    are dropped and the commit count plays no part. *)
Theorem trunk_major_bump_resets_minor_and_patch :
  forall (Obs : Type) (git : Git) (options : ProspectorOptions Obs)
         (w : World Obs) (t : VersionTag),
    let info := fst (calculateVersion git options w) in
    isMainBranch info = true ->
    enabled_of options = true ->
    lastTag info = Some t ->
    explicitVersion (commitBumps info) = None ->
    0 < b_major (commitBumps info) ->
    major (version t) + b_major (commitBumps info) <= 2 ^ 53 ->
    vi_version info =
    format {| major := major (version t) + b_major (commitBumps info);
              minor := 0;
              patch := b_patch (commitBumps info);
              prerelease := prerelease (version t) |}.
Proof.
  intros Obs git options w t info Hmain Hen Htag He Hmj Hb. subst info.
  run_values.
  rewrite Htag in *. unfold version_with_tag. rewrite Hmain, Hen in *.
  cbn [andb] in *.
  rewrite (no_explicit_not_truthy _ He).
  apply N.ltb_lt in Hmj. rewrite Hmj.
  cbn [orb patch set_patch major minor prerelease].
  rewrite (js_add_exact _ _ Hb), js_add_0_l. reflexivity.
Qed.

Lemma trunk_major_bump_resets_minor_and_patch_witness :
  let info := fst (calculateVersion spaced_major_repo exhaustive_options world0) in
  commitBumps info
  = {| b_major := 1; b_minor := 1; b_patch := 1; explicitVersion := None |}
  /\ vi_version info = "2.0.1".
Proof.
  split; [reflexivity|].
  apply (@trunk_major_bump_resets_minor_and_patch unit spaced_major_repo
           exhaustive_options world0 (tag_at "v1.5.7" (plain_version 1 5 7)));
    try reflexivity.
  vm_compute; discriminate.
Defined.

(** X4. On a trunk branch with a baseline tag and commit bumps enabled,
    when the tally has no explicit version, no major bump and at least one
    minor bump, and the baseline minor number plus the minor bumps is at
    most [2 ^ 53], the version keeps the baseline major, adds the minor
    bumps to the baseline minor and has the patch bumps as its patch
    number. *)
Theorem trunk_minor_bump_resets_patch :
  forall (Obs : Type) (git : Git) (options : ProspectorOptions Obs)
         (w : World Obs) (t : VersionTag),
    let info := fst (calculateVersion git options w) in
    isMainBranch info = true ->
    enabled_of options = true ->
    lastTag info = Some t ->
    explicitVersion (commitBumps info) = None ->
    b_major (commitBumps info) = 0 ->
    0 < b_minor (commitBumps info) ->
    minor (version t) + b_minor (commitBumps info) <= 2 ^ 53 ->
    vi_version info =
    format {| major := major (version t);
              minor := minor (version t) + b_minor (commitBumps info);
              patch := b_patch (commitBumps info);
              prerelease := prerelease (version t) |}.
Proof.
  intros Obs git options w t info Hmain Hen Htag He Hmj Hmn Hb.
  subst info. run_values.
  rewrite Htag in *. unfold version_with_tag. rewrite Hmain, Hen in *.
  cbn [andb] in *.
  rewrite (no_explicit_not_truthy _ He), Hmj.
  apply N.ltb_lt in Hmn. rewrite Hmn. cbn [N.ltb N.compare orb].
  cbn [patch set_patch major minor prerelease].
  rewrite (js_add_exact _ _ Hb), js_add_0_l, js_add_0_r. reflexivity.
Qed.

Lemma trunk_minor_bump_resets_patch_witness :
  let info :=
    fst (calculateVersion spaced_minor_minor_patch_repo exhaustive_options
                          world0) in
  commitBumps info
  = {| b_major := 0; b_minor := 2; b_patch := 1; explicitVersion := None |}
  /\ vi_version info = "1.4.1".
Proof.
  split; [reflexivity|].
  apply (@trunk_minor_bump_resets_patch unit spaced_minor_minor_patch_repo
           exhaustive_options world0 (tag_at "v1.2.0" (plain_version 1 2 0)));
    try reflexivity.
  vm_compute; discriminate.
Defined.

(** X5. Off the trunk the version is a prerelease of the next patch: with a
    baseline tag it is the baseline with patch + 1, a dash, the sanitized
    branch name, a dot and the commit count; without a tag the base is
    [0.0.1].  Bump markers and the bump options play no part. *)
Theorem feature_branch_prerelease_version :
  forall (Obs : Type) (git : Git) (options : ProspectorOptions Obs)
         (w : World Obs),
    let info := fst (calculateVersion git options w) in
    isMainBranch info = false ->
    vi_version info =
    match lastTag info with
    | Some t =>
        format {| major := major (version t); minor := minor (version t);
                  patch := patch (version t) + 1;
                  prerelease := prerelease (version t) |}
    | None => "0.0.1"
    end ++ "-" ++ sanitize (vi_branch info) ++ "."
        ++ Str.of_N (commitsSinceTag info).
Proof.
  intros Obs git options w info Hmain. subst info. run_values.
  destruct (last_tag_value git _ (git_head git)) as [t|];
    unfold version_with_tag, version_without_tag; rewrite Hmain.
  - reflexivity.
  - reflexivity.
Qed.

Lemma feature_branch_prerelease_version_witness :
  vi_version (fst (calculateVersion feature_repo targeted_options world0))
  = "1.0.1-feature-x.2"
  /\ vi_version
       (fst (calculateVersion untagged_feature_repo targeted_options world0))
     = "0.0.1-feature-test.3".
Proof.
  split.
  - apply (@feature_branch_prerelease_version unit feature_repo targeted_options
             world0). reflexivity.
  - apply (@feature_branch_prerelease_version unit untagged_feature_repo
             targeted_options world0). reflexivity.
Defined.

(** ** The commit count *)

Lemma exhaustive_commits_length :
  forall git k last head,
    (length (exhaustive_commits git k last head)
     <= length (history git last head))%nat.
Proof.
  intros git k last head. unfold exhaustive_commits.
  etransitivity; [apply parse_log_length|].
  destruct (0 <? k)%Z; [|apply le_n].
  rewrite length_firstn. lia.
Qed.

(** X6. When the store is consistent (its count of the range is the length
    of the log of the range), the commit count of the result never exceeds
    the number of commits in range, under every scanning strategy, capped
    or not, with or without the bump analysis. *)
Theorem commit_count_at_most_history_length :
  forall (Obs : Type) (git : Git) (options : ProspectorOptions Obs)
         (w : World Obs),
    let info := fst (calculateVersion git options w) in
    let commits := history git (lastTag info) (currentCommit info) in
    git_count git (count_range (lastTag info) (currentCommit info))
      = N.of_nat (length commits) ->
    commitsSinceTag info <= N.of_nat (length commits).
Proof.
  intros Obs git options w info commits Hcount. subst info commits.
  run_values. cbn [config_of c_maxCommitScan c_tagPrefix] in *.
  set (last := last_tag_value git _ _) in *.
  set (head := git_head git) in *.
  unfold count_value.
  destruct (length_is_count (maxCommitScan options)
              (fetched_commits git (config_of options))) eqn:L.
  - unfold length_is_count in L.
    destruct (maxCommitScan options) as [k|] eqn:Ek; [|discriminate].
    assert (F : fetched_commits git (config_of options) = []
                \/ fetched_commits git (config_of options)
                   = exhaustive_commits git k last head).
    { unfold fetched_commits. cbn [config_of c_maxCommitScan c_tagPrefix].
      rewrite Ek. fold last head.
      destruct (_ && _); [right; reflexivity | left; reflexivity]. }
    destruct F as [F | F]; rewrite F in *; [discriminate|].
    pose proof (exhaustive_commits_length git k last head). lia.
  - unfold count_range in Hcount. destruct last; rewrite Hcount; lia.
Qed.

Lemma commit_count_at_most_history_length_witness :
  let info := fst (calculateVersion jump_repo exhaustive_options world0) in
  length (history jump_repo (lastTag info) (currentCommit info)) = 3%nat
  /\ commitsSinceTag info = 1
  /\ commitsSinceTag info <= 3.
Proof.
  split; [reflexivity|]. split; [reflexivity|].
  apply (@commit_count_at_most_history_length unit jump_repo exhaustive_options
           world0); reflexivity.
Defined.

(** X7. Under the targeted strategy (no [maxCommitScan]) the commit count of
    the result is always the store's count of the range, never the number
    of commits the filtered scan returned. *)
Theorem targeted_count_is_authoritative :
  forall (Obs : Type) (git : Git) (options : ProspectorOptions Obs)
         (w : World Obs),
    let info := fst (calculateVersion git options w) in
    maxCommitScan options = None ->
    commitsSinceTag info
    = git_count git (count_range (lastTag info) (currentCommit info)).
Proof.
  intros Obs git options w info H. subst info. run_values.
  cbn [config_of c_maxCommitScan]. rewrite H.
  unfold count_value, length_is_count, count_range.
  destruct (last_tag_value git _ _); reflexivity.
Qed.

Lemma targeted_count_is_authoritative_witness :
  let info := fst (calculateVersion quoted_pattern_repo targeted_options world0) in
  length (fetched_commits quoted_pattern_repo default_config) = 1%nat
  /\ commitsSinceTag info = 3.
Proof.
  split; [reflexivity|].
  apply (@targeted_count_is_authoritative unit quoted_pattern_repo
           targeted_options world0). reflexivity.
Defined.

Lemma newer_than_explicit_length :
  forall p l, (length (newer_than_explicit p l) <= length l)%nat.
Proof.
  intros p l. induction l as [|c l IH]; cbn [newer_than_explicit length]; [lia|].
  destruct (is_explicit _); cbn [length]; lia.
Qed.

Lemma analyze_sum_le_length :
  forall p l,
    b_major (analyzeCommitBumps l p) + b_minor (analyzeCommitBumps l p)
    + b_patch (analyzeCommitBumps l p) <= N.of_nat (length l).
Proof.
  intros p l. unfold analyzeCommitBumps. rewrite analyze_loop_spec.
  cbn [b_major b_minor b_patch no_bumps]. rewrite !N.add_0_l.
  pose proof (count_intent_le p (newer_than_explicit p l)).
  pose proof (newer_than_explicit_length p l). lia.
Qed.

(** X8. With a positive [maxCommitScan] the three counters of the tally
    together never exceed the cap. *)
Theorem capped_scan_bounds_tally :
  forall (Obs : Type) (git : Git) (options : ProspectorOptions Obs)
         (w : World Obs) (k : Z),
    let tally := commitBumps (fst (calculateVersion git options w)) in
    maxCommitScan options = Some k ->
    (0 < k)%Z ->
    b_major tally + b_minor tally + b_patch tally <= Z.to_N k.
Proof.
  intros Obs git options w k tally Hk Hpos. subst tally. run_values.
  destruct (enabled_of options && _) eqn:E; [|cbn; lia].
  etransitivity; [apply analyze_sum_le_length|].
  unfold fetched_commits. rewrite enabled_of_config, mainBranches_of_config, E.
  cbn [config_of c_maxCommitScan c_tagPrefix]. rewrite Hk.
  unfold scan_value, exhaustive_commits.
  assert (Hp : (0 <? k)%Z = true) by now apply Z.ltb_lt.
  rewrite Hp.
  match goal with
  | |- N.of_nat (length (parse_log (Str.trim (log_stdout (firstn ?n ?h))))) <= _ =>
      pose proof (parse_log_length (firstn n h)) as P;
      rewrite length_firstn in P
  end.
  lia.
Qed.

Lemma capped_scan_bounds_tally_witness :
  let tally := commitBumps (fst (calculateVersion major_repo capped_options world0)) in
  b_major tally + b_minor tally + b_patch tally <= 2.
Proof.
  apply (@capped_scan_bounds_tally unit major_repo capped_options world0 2%Z);
    [reflexivity | lia].
Defined.

Lemma scan_value_one_commit :
  forall git scan last head,
    forallb (fun c => Str.truthy (Str.without_nul (message c)))
            (history git last head) = true ->
    (length (scan_value git scan last head) <= 1)%nat.
Proof.
  intros git scan last head H. unfold scan_value.
  destruct scan as [k|].
  - unfold exhaustive_commits. apply parse_log_one_commit.
    destruct (0 <? k)%Z; [now apply forallb_firstn | exact H].
  - unfold targeted_commits, grep_commits. apply parse_log_one_commit.
    now apply forallb_filter.
Qed.

(** X30. When no commit in range has an empty message, the scan hands at
    most one commit to the bump analysis, under every scanning strategy:
    the three counters of the tally together never exceed one. *)
Theorem scan_delivers_at_most_one_commit :
  forall (Obs : Type) (git : Git) (options : ProspectorOptions Obs)
         (w : World Obs),
    let info := fst (calculateVersion git options w) in
    let tally := commitBumps info in
    forallb (fun c => Str.truthy (Str.without_nul (message c)))
            (history git (lastTag info) (currentCommit info)) = true ->
    (length (fetched_commits git (config_of options)) <= 1)%nat
    /\ b_major tally + b_minor tally + b_patch tally <= 1.
Proof.
  intros Obs git options w info tally H. subst info tally. run_values.
  assert (F : (length (fetched_commits git (config_of options)) <= 1)%nat).
  { unfold fetched_commits.
    destruct (_ && _); [|cbn [length]; lia].
    now apply scan_value_one_commit. }
  split; [exact F|].
  destruct (enabled_of options && _); [|cbn; lia].
  etransitivity; [apply analyze_sum_le_length|]. lia.
Qed.

Lemma scan_delivers_at_most_one_commit_witness :
  let info := fst (calculateVersion major_repo exhaustive_options world0) in
  map (fun c => spec_classify default_patterns (message c))
      (history major_repo (lastTag info) (currentCommit info))
  = [Patch; Minor; Major]
  /\ commitBumps info
     = {| b_major := 0; b_minor := 0; b_patch := 1; explicitVersion := None |}
  /\ (length (fetched_commits major_repo exhaustive_config) <= 1)%nat
  /\ b_major (commitBumps info) + b_minor (commitBumps info)
     + b_patch (commitBumps info) <= 1.
Proof.
  split; [reflexivity|]. split; [reflexivity|].
  apply (@scan_delivers_at_most_one_commit unit major_repo exhaustive_options
           world0).
  reflexivity.
Defined.

(** ** The branch *)

(** X9. Without a [mainBranch] option (or with the empty string) a run is a
    trunk run exactly when git names the branch [main] or [master]. *)
Theorem default_trunk_names :
  forall (Obs : Type) (git : Git) (options : ProspectorOptions Obs)
         (w : World Obs),
    mainBranch options = None \/ mainBranch options = Some (inl "") ->
    (isMainBranch (fst (calculateVersion git options w)) = true
     <-> git_branch git = "main" \/ git_branch git = "master").
Proof.
  intros Obs git options w H. run_values.
  assert (M : mainBranches_of options = ["main"; "master"]).
  { unfold mainBranches_of. destruct H as [-> | ->]; reflexivity. }
  rewrite M. cbn [existsb]. rewrite orb_false_r, orb_true_iff, !String.eqb_eq.
  destruct (git_branch git) as [|c s] eqn:B; cbn [Str.truthy].
  - split; [intros [X | X]; discriminate | intros [X | X]; discriminate].
  - reflexivity.
Qed.

Lemma default_trunk_names_witness :
  isMainBranch (fst (calculateVersion jump_repo targeted_options world0)) = true
  <-> git_branch jump_repo = "main" \/ git_branch jump_repo = "master".
Proof.
  apply (@default_trunk_names unit jump_repo targeted_options world0).
  left. reflexivity.
Defined.

(** X10. When every git command fails (no branch name, no tags, a zero
    count) a run with the default trunk names still returns a result: the
    branch is [unknown], it is not a trunk branch, and the version is
    [0.0.1-unknown.0]. *)
Theorem failing_git_degrades_to_defaults :
  forall (Obs : Type) (git : Git) (options : ProspectorOptions Obs)
         (w : World Obs),
    let info := fst (calculateVersion git options w) in
    mainBranch options = None ->
    git_branch git = "" ->
    (forall prefix, git_version_tags git prefix = []) ->
    git_count git "HEAD" = 0 ->
    vi_branch info = "unknown"
    /\ isMainBranch info = false
    /\ lastTag info = None
    /\ commitsSinceTag info = 0
    /\ vi_version info = "0.0.1-unknown.0".
Proof.
  intros Obs git options w info Hm Hb Ht Hc. subst info. run_values.
  assert (M : mainBranches_of options = ["main"; "master"])
    by (unfold mainBranches_of; now rewrite Hm).
  assert (L : forall p h, last_tag_value git p h = None)
    by (intros p h; unfold last_tag_value; now rewrite Ht).
  assert (F : fetched_commits git (config_of options) = []).
  { unfold fetched_commits. rewrite mainBranches_of_config, M, Hb.
    cbn. now rewrite andb_false_r. }
  rewrite M, Hb, L, F. cbn [Str.truthy existsb String.eqb Ascii.eqb].
  unfold count_value. cbn [length_is_count].
  replace (length_is_count (c_maxCommitScan (config_of options)) [])
    with false by (unfold length_is_count; now destruct (c_maxCommitScan _)).
  rewrite Hc. repeat split.
Qed.

Lemma failing_git_degrades_to_defaults_witness :
  vi_version (fst (calculateVersion broken_git targeted_options world0))
  = "0.0.1-unknown.0".
Proof.
  apply (@failing_git_degrades_to_defaults unit broken_git targeted_options
           world0); reflexivity.
Defined.

(** ** The explicit-version pattern *)

Lemma span_digits_digits :
  forall s d r, Str.span_digits s = (d, r) -> string_forall Str.is_digit d = true.
Proof.
  induction s as [|c s IH]; cbn [Str.span_digits]; intros d r H.
  - injection H as <- _. reflexivity.
  - destruct (Str.is_digit c) eqn:D.
    + destruct (Str.span_digits s) as [d' r'] eqn:E.
      injection H as <- _. cbn [string_forall]. rewrite D. eapply IH. reflexivity.
    + injection H as <- _. reflexivity.
Qed.

Lemma eat_digits_digits :
  forall s d r, Str.eat_digits s = Some (d, r) -> digits_only d = true.
Proof.
  intros s d r. unfold Str.eat_digits.
  destruct (Str.span_digits s) as [d' r'] eqn:E.
  pose proof (span_digits_digits _ E) as D.
  destruct d' as [|c d']; [discriminate|].
  intros [= <- _]. unfold digits_only. now rewrite D.
Qed.

Lemma version_tail_shape :
  forall s v,
    version_tail s = Some v ->
    exists a b c,
      v = a ++ "." ++ b ++ "." ++ c
      /\ digits_only a = true /\ digits_only b = true /\ digits_only c = true.
Proof.
  intros s v. unfold version_tail.
  destruct (Str.eat_char ":" s) as [s1|]; [|discriminate].
  destruct (Str.eat_digits s1) as [[a s2]|] eqn:A; [|discriminate].
  destruct (Str.eat_char "." s2) as [s3|]; [|discriminate].
  destruct (Str.eat_digits s3) as [[b s4]|] eqn:B; [|discriminate].
  destruct (Str.eat_char "." s4) as [s5|]; [|discriminate].
  destruct (Str.eat_digits s5) as [[c s6]|] eqn:C; [|discriminate].
  destruct (Str.eat_char "]" s6) as [s7|]; [|discriminate].
  intros [= <-]. exists a, b, c.
  repeat split; eauto using eat_digits_digits.
Qed.

Lemma exec_shape :
  forall m v,
    VERSION_SET_PATTERN_exec m = Some v ->
    exists a b c,
      v = a ++ "." ++ b ++ "." ++ c
      /\ digits_only a = true /\ digits_only b = true /\ digits_only c = true.
Proof.
  assert (A : forall s v, version_at s = Some v ->
                          exists a b c,
                            v = a ++ "." ++ b ++ "." ++ c
                            /\ digits_only a = true /\ digits_only b = true
                            /\ digits_only c = true).
  { intros s v. unfold version_at.
    destruct (Str.eat_char "[" s) as [r|]; [|discriminate].
    destruct (Str.eat_ci "version" r) as [r1|].
    - destruct (version_tail r1) as [v1|] eqn:E1.
      + intros [= <-]. eapply version_tail_shape; eassumption.
      + destruct (Str.eat_ci "v" r) as [r2|]; [|discriminate].
        apply version_tail_shape.
    - destruct (Str.eat_ci "v" r) as [r2|]; [|discriminate].
      apply version_tail_shape. }
  induction m as [|c m IH]; intros v; cbn [VERSION_SET_PATTERN_exec].
  - destruct (version_at "") eqn:E; [|discriminate].
    intros [= <-]. eapply A; eassumption.
  - destruct (version_at (String c m)) eqn:E.
    + intros [= <-]. eapply A; eassumption.
    + apply IH.
Qed.

Lemma newest_explicit_exec :
  forall p commits v,
    newest_explicit p commits = Some v ->
    exists c, In c commits /\ VERSION_SET_PATTERN_exec (message c) = Some v.
Proof.
  intros p commits v. induction commits as [|c older IH]; [discriminate|].
  cbn [newest_explicit]. unfold spec_classify.
  destruct (VERSION_SET_PATTERN_exec (message c)) as [u|] eqn:X.
  - intros [= <-]. exists c. split; [now left | exact X].
  - intros H.
    assert (H' : newest_explicit p older = Some v).
    { destruct (test_opt (p_major p) (message c)); [exact H|].
      destruct (test_opt (p_minor p) (message c)); [exact H|].
      destruct (test_opt (p_patch p) (message c)); exact H. }
    destruct (IH H') as [c' [I E]]. exists c'. split; [now right | exact E].
Qed.

(** X11. An explicit version in a tally is always three non-empty runs of
    digits separated by dots, taken from the message of one of the
    analysed commits. *)
Theorem explicit_version_is_numeric_triple :
  forall (patterns : Patterns) (commits : list CommitInfo) (v : string),
    explicitVersion (analyzeCommitBumps commits patterns) = Some v ->
    (exists c, In c commits /\ VERSION_SET_PATTERN_exec (message c) = Some v)
    /\ exists a b c,
         v = a ++ "." ++ b ++ "." ++ c
         /\ digits_only a = true /\ digits_only b = true
         /\ digits_only c = true.
Proof.
  intros patterns commits v H.
  unfold analyzeCommitBumps in H. rewrite analyze_loop_spec in H.
  cbn [explicitVersion no_bumps] in H.
  destruct (newest_explicit patterns commits) as [u|] eqn:E; [|discriminate].
  injection H as ->.
  destruct (newest_explicit_exec _ _ E) as [c [I X]].
  split; [exists c; now split | eapply exec_shape; eassumption].
Qed.

Lemma explicit_version_is_numeric_triple_witness :
  exists a b c,
    "2.0.0" = a ++ "." ++ b ++ "." ++ c
    /\ digits_only a = true /\ digits_only b = true /\ digits_only c = true.
Proof.
  apply (@explicit_version_is_numeric_triple default_patterns
           [commit_of "c2" "plain"; commit_of "c1" "[v:2.0.0] jump"] "2.0.0").
  reflexivity.
Defined.

Lemma span_digits_app :
  forall d x r,
    string_forall Str.is_digit d = true ->
    Str.is_digit x = false ->
    Str.span_digits (d ++ String x r) = (d, String x r).
Proof.
  induction d as [|c d IH]; intros x r Hd Hx.
  - cbn. now rewrite Hx.
  - cbn [string_forall] in Hd. apply andb_true_iff in Hd as [Hc Hd].
    cbn [append Str.span_digits]. now rewrite Hc, IH.
Qed.

Lemma eat_digits_app :
  forall d x r,
    digits_only d = true ->
    Str.is_digit x = false ->
    Str.eat_digits (d ++ String x r) = Some (d, String x r).
Proof.
  intros d x r Hd Hx. unfold digits_only in Hd.
  apply andb_true_iff in Hd as [Hd Hn].
  unfold Str.eat_digits. rewrite span_digits_app by assumption.
  destruct d; [discriminate | reflexivity].
Qed.

Lemma version_tail_marker :
  forall a b c post,
    digits_only a = true -> digits_only b = true -> digits_only c = true ->
    version_tail (":" ++ a ++ "." ++ b ++ "." ++ c ++ "]" ++ post)
    = Some (a ++ "." ++ b ++ "." ++ c).
Proof.
  intros a b c post Ha Hb Hc. unfold version_tail.
  cbn [append Str.eat_char]. change (Ascii.eqb ":" ":") with true. cbn iota.
  change ("." ++ b ++ "." ++ c ++ "]" ++ post)
    with (String "." (b ++ "." ++ c ++ "]" ++ post)).
  rewrite eat_digits_app by (assumption || reflexivity).
  cbn [Str.eat_char]. change (Ascii.eqb "." ".") with true. cbn iota.
  change ("." ++ c ++ "]" ++ post) with (String "." (c ++ "]" ++ post)).
  rewrite eat_digits_app by (assumption || reflexivity).
  cbn [Str.eat_char]. change (Ascii.eqb "." ".") with true. cbn iota.
  change ("]" ++ post) with (String "]" post).
  rewrite eat_digits_app by (assumption || reflexivity).
  cbn [Str.eat_char]. change (Ascii.eqb "]" "]") with true. reflexivity.
Qed.

Lemma eqb_ci_fold :
  forall a b, Str.fold_case a = Str.fold_case b -> Str.eqb_ci a b = true.
Proof. intros a b H. unfold Str.eqb_ci. rewrite H. apply Ascii.eqb_refl. Qed.

Lemma eat_ci_lower :
  forall p kw r, lower p = lower kw -> Str.eat_ci p (kw ++ r) = Some r.
Proof.
  induction p as [|a p IH]; intros [|b kw] r H; try discriminate.
  - reflexivity.
  - cbn [lower] in H. injection H as Hc Hr.
    cbn [append Str.eat_ci]. rewrite (eqb_ci_fold _ _ Hc). now apply IH.
Qed.

Lemma eat_ci_v_one :
  forall k r, Str.eqb_ci "v" k = true -> Str.eat_ci "v" (String k "" ++ r) = Some r.
Proof. intros k r K. cbn [append Str.eat_ci]. now rewrite K. Qed.

Lemma eat_ci_version_colon :
  forall k r, Str.eat_ci "version" (String k "" ++ ":" ++ r) = None.
Proof.
  intros k r. cbn [append Str.eat_ci].
  destruct (Str.eqb_ci "v" k); reflexivity.
Qed.

Lemma version_at_marker_found :
  forall kw a b c post,
    lower kw = "version" \/ lower kw = "v" ->
    digits_only a = true -> digits_only b = true -> digits_only c = true ->
    version_at (marker kw a b c ++ post) = Some (a ++ "." ++ b ++ "." ++ c).
Proof.
  intros kw a b c post Hkw Ha Hb Hc.
  assert (E : marker kw a b c ++ post
              = String "[" (kw ++ ":" ++ a ++ "." ++ b ++ "." ++ c ++ "]" ++ post)).
  { unfold marker. rewrite !str_app_assoc. reflexivity. }
  rewrite E. unfold version_at. cbn [Str.eat_char].
  change (Ascii.eqb "[" "[") with true. cbv beta iota zeta.
  destruct Hkw as [Hkw | Hkw].
  - rewrite (eat_ci_lower "version" kw _ (eq_sym Hkw)).
    cbv beta iota. now rewrite version_tail_marker.
  - destruct kw as [|k [|k' kw]]; try discriminate.
    cbn [lower] in Hkw. injection Hkw as Hk.
    assert (K : Str.eqb_ci "v" k = true) by (apply eqb_ci_fold; now rewrite Hk).
    rewrite eat_ci_version_colon, (@eat_ci_v_one k _ K).
    cbv beta iota. now rewrite version_tail_marker.
Qed.

Lemma version_at_no_bracket :
  forall c s, not_open_bracket c = true -> version_at (String c s) = None.
Proof.
  intros c s H. unfold version_at, Str.eat_char.
  unfold not_open_bracket in H. apply negb_true_iff in H. now rewrite H.
Qed.

Lemma exec_reads_marker :
  forall (pre kw a b c post : string),
    string_forall not_open_bracket pre = true ->
    lower kw = "version" \/ lower kw = "v" ->
    digits_only a = true -> digits_only b = true -> digits_only c = true ->
    VERSION_SET_PATTERN_exec (pre ++ marker kw a b c ++ post)
    = Some (a ++ "." ++ b ++ "." ++ c).
Proof.
  intros pre kw a b c post Hpre Hkw Ha Hb Hc.
  induction pre as [|x pre IH].
  - cbn [append].
    pose proof (@version_at_marker_found kw a b c post Hkw Ha Hb Hc) as V.
    destruct (marker kw a b c ++ post) eqn:M;
      cbn [VERSION_SET_PATTERN_exec]; now rewrite V.
  - cbn [string_forall] in Hpre. apply andb_true_iff in Hpre as [Hx Hpre].
    cbn [append VERSION_SET_PATTERN_exec].
    rewrite (@version_at_no_bracket x _ Hx). now apply IH.
Qed.

(** X12. A message that holds a marker [[v:a.b.c]] or [[version:a.b.c]]
    (the keyword in any case, [a], [b], [c] non-empty runs of digits) after
    a text without an opening bracket yields exactly [a.b.c], whatever
    follows the marker. *)
Theorem marker_is_read_back :
  forall (pre kw a b c post : string),
    string_forall not_open_bracket pre = true ->
    lower kw = "version" \/ lower kw = "v" ->
    digits_only a = true -> digits_only b = true -> digits_only c = true ->
    VERSION_SET_PATTERN_exec (pre ++ marker kw a b c ++ post)
    = Some (a ++ "." ++ b ++ "." ++ c).
Proof.
  intros pre kw a b c post Hpre Hkw Ha Hb Hc.
  now apply exec_reads_marker.
Qed.

Lemma marker_is_read_back_witness :
  VERSION_SET_PATTERN_exec ("release " ++ marker "Version" "12" "0" "345" ++ " done")
  = Some "12.0.345".
Proof.
  apply (@marker_is_read_back "release " "Version" "12" "0" "345" " done");
    try reflexivity.
  left. reflexivity.
Defined.

Lemma string_of_uint_digits :
  forall d, string_forall Str.is_digit (NilEmpty.string_of_uint d) = true.
Proof. induction d; cbn [NilEmpty.string_of_uint string_forall]; auto. Qed.

Lemma of_N_digits : forall n, digits_only (Str.of_N n) = true.
Proof.
  intros n. unfold digits_only, Str.of_N.
  rewrite string_of_uint_digits. cbn [andb].
  assert (H : N.to_uint n <> Decimal.Nil).
  { destruct n as [|p]; [discriminate | apply Unsigned.to_uint_nonnil]. }
  destruct (N.to_uint n); [congruence | reflexivity ..].
Qed.

(** X13. When the message of the newest analysed commit holds the marker
    of a version [x.y.z] as [format] prints it, after a text without an
    opening bracket, the tally is that explicit version with all counters
    zero, whatever the bump patterns are, whatever follows the marker and
    whatever the older commits contain. *)
Theorem newest_marker_sets_the_tally :
  forall (patterns : Patterns) (h pre kw post : string) (x y z : N)
         (older : list CommitInfo),
    string_forall not_open_bracket pre = true ->
    lower kw = "version" \/ lower kw = "v" ->
    analyzeCommitBumps
      ({| hash := h;
          message := pre ++ marker kw (Str.of_N x) (Str.of_N y) (Str.of_N z)
                         ++ post |} :: older)
      patterns
    = {| b_major := 0; b_minor := 0; b_patch := 0;
         explicitVersion := Some (format (plain_version x y z)) |}.
Proof.
  intros patterns h pre kw post x y z older Hpre Hkw.
  unfold analyzeCommitBumps. cbn [analyze_loop message].
  rewrite (@exec_reads_marker pre kw _ _ _ post Hpre Hkw
             (of_N_digits x) (of_N_digits y) (of_N_digits z)).
  assert (T : Str.truthy (Str.of_N x ++ "." ++ Str.of_N y ++ "." ++ Str.of_N z)
              = true) by apply truthy_app_dot.
  rewrite T. unfold format, plain_version.
  cbn [major minor patch prerelease no_bumps b_major b_minor b_patch].
  now rewrite str_app_nil_r.
Qed.

Lemma newest_marker_sets_the_tally_witness :
  analyzeCommitBumps
    [commit_of "c2" ("bump " ++ marker "v" (Str.of_N 2) (Str.of_N 10) (Str.of_N 0)
                             ++ " [major]");
     commit_of "c1" "[major] older"]
    default_patterns
  = {| b_major := 0; b_minor := 0; b_patch := 0;
       explicitVersion := Some "2.10.0" |}.
Proof.
  apply (@newest_marker_sets_the_tally default_patterns "c2" "bump " "v"
           " [major]" 2 10 0 [commit_of "c1" "[major] older"]).
  - reflexivity.
  - right. reflexivity.
Defined.

(** ** Composing tallies *)

Lemma count_intent_app :
  forall p f l1 l2,
    count_intent p f (l1 ++ l2) = count_intent p f l1 + count_intent p f l2.
Proof.
  intros. unfold count_intent. rewrite filter_app, length_app. lia.
Qed.

Lemma no_explicit_app :
  forall p l1 l2,
    newest_explicit p l1 = None ->
    newer_than_explicit p (l1 ++ l2) = (l1 ++ newer_than_explicit p l2)%list
    /\ newest_explicit p (l1 ++ l2) = newest_explicit p l2.
Proof.
  intros p l1 l2. induction l1 as [|c l1 IH]; intros H; [now split|].
  cbn [newest_explicit newer_than_explicit app] in *.
  destruct (spec_classify p (message c)); try discriminate;
    cbn [is_explicit]; destruct (IH H) as [A B]; now rewrite A, B.
Qed.

Lemma some_explicit_app :
  forall p l1 l2 v,
    newest_explicit p l1 = Some v ->
    newer_than_explicit p (l1 ++ l2) = newer_than_explicit p l1
    /\ newest_explicit p (l1 ++ l2) = Some v.
Proof.
  intros p l1 l2 v. induction l1 as [|c l1 IH]; intros H; [discriminate|].
  cbn [newest_explicit newer_than_explicit app] in *.
  destruct (spec_classify p (message c)); cbn [is_explicit];
    try (destruct (IH H) as [A B]; now rewrite A, B).
  now split.
Qed.

(** X14. Analysing a sequence that continues a newer part by an older part:
    when the newer part carries no explicit version the tally is the sum of
    the two tallies with the explicit version of the older part; when it
    carries one, the older part changes nothing. *)
Theorem analyzeCommitBumps_app :
  forall (patterns : Patterns) (newer older : list CommitInfo),
    let t := analyzeCommitBumps newer patterns in
    (explicitVersion t = None ->
     analyzeCommitBumps (newer ++ older) patterns
     = add_bumps t (analyzeCommitBumps older patterns))
    /\ (explicitVersion t <> None ->
        analyzeCommitBumps (newer ++ older) patterns = t).
Proof.
  intros patterns newer older t. subst t.
  unfold analyzeCommitBumps, add_bumps. rewrite !analyze_loop_spec.
  cbn [b_major b_minor b_patch explicitVersion no_bumps]. rewrite !N.add_0_l.
  destruct (newest_explicit patterns newer) as [v|] eqn:E.
  - destruct (some_explicit_app patterns newer older E) as [A B].
    split; [discriminate|]. intros _. now rewrite A, B.
  - destruct (no_explicit_app patterns newer older E) as [A B].
    split; [|congruence]. intros _.
    rewrite A, B, !count_intent_app.
    assert (N : newer_than_explicit patterns newer = newer).
    { clear - E. induction newer as [|c l IH]; [reflexivity|].
      cbn [newest_explicit newer_than_explicit] in *.
      destruct (spec_classify patterns (message c)); try discriminate;
        cbn [is_explicit]; now rewrite IH. }
    rewrite N. reflexivity.
Qed.

Lemma analyzeCommitBumps_app_witness :
  analyzeCommitBumps
    ([commit_of "c4" "[minor] d"; commit_of "c3" "[major] c"]
     ++ [commit_of "c2" "[patch] b"; commit_of "c1" "[v:1.0.0] a"])
    default_patterns
  = {| b_major := 1; b_minor := 1; b_patch := 1;
       explicitVersion := Some "1.0.0" |}.
Proof.
  apply (proj1 (@analyzeCommitBumps_app default_patterns
                  [commit_of "c4" "[minor] d"; commit_of "c3" "[major] c"]
                  [commit_of "c2" "[patch] b"; commit_of "c1" "[v:1.0.0] a"])).
  reflexivity.
Defined.

(** ** Suggestions *)

(** X15. Whatever the increment function of the semver package answers,
    [suggestVersionBump] returns a non-empty string. *)
Theorem suggestion_is_never_empty :
  forall (Obs : Type) (git : Git) (inc : SemVer -> string -> option string)
         (kind : string) (options : ProspectorOptions Obs) (w : World Obs),
    Str.truthy (fst (suggestVersionBump git inc kind options w)) = true.
Proof.
  intros Obs git inc kind options w.
  unfold suggestVersionBump, bind.
  destruct (calculateVersion git options w) as [info w'].
  cbn [ret fst].
  destruct (inc _ kind) as [b|]; [|reflexivity].
  destruct (Str.truthy b) eqn:T; [exact T | reflexivity].
Qed.

(** X16. A suggestion depends on the repository and on the tag prefix
    only: two calls whose options agree on [tagPrefix] suggest the same
    version, whatever their branch names, bump options, scan limits,
    patterns and callbacks are. *)
Theorem suggestion_depends_on_tags_only :
  forall (git : Git) (inc : SemVer -> string -> option string) (kind : string)
         (Obs1 Obs2 : Type)
         (o1 : ProspectorOptions Obs1) (o2 : ProspectorOptions Obs2)
         (w1 : World Obs1) (w2 : World Obs2),
    tagPrefix o1 = tagPrefix o2 ->
    fst (suggestVersionBump git inc kind o1 w1)
    = fst (suggestVersionBump git inc kind o2 w2).
Proof.
  intros git inc kind Obs1 Obs2 o1 o2 w1 w2 H.
  unfold suggestVersionBump, bind.
  pose proof (returns_calculateVersion git o1 w1) as R1.
  pose proof (returns_calculateVersion git o2 w2) as R2.
  destruct (calculateVersion git o1 w1) as [i1 w1'].
  destruct (calculateVersion git o2 w2) as [i2 w2'].
  cbn [fst] in *. subst i1 i2. unfold version_value.
  cbn [lastTag ret fst config_of c_tagPrefix]. now rewrite H.
Qed.

Lemma suggestion_depends_on_tags_only_witness :
  fst (suggestVersionBump major_repo semver_inc "minor" targeted_options world0)
  = fst (suggestVersionBump major_repo semver_inc "minor"
           (with_callback disabled_config (Some recording))
           {| obs := []; issued := [] |}).
Proof.
  apply (@suggestion_depends_on_tags_only major_repo semver_inc "minor"
           unit (list string) targeted_options
           (with_callback disabled_config (Some recording))
           world0 {| obs := []; issued := [] |}).
  reflexivity.
Defined.

(** ** The baseline tag *)

Lemma find_first :
  forall A (f : A -> bool) l x,
    find f l = Some x ->
    exists before after,
      l = (before ++ x :: after)%list /\ f x = true
      /\ forall u, In u before -> f u = false.
Proof.
  intros A f l x. induction l as [|y l IH]; [discriminate|].
  cbn [find]. destruct (f y) eqn:F.
  - intros [= <-]. exists [], l. repeat split; [exact F | intros u []].
  - intros H. destruct (IH H) as (before & after & -> & Fx & Hb).
    exists (y :: before), after. repeat split; [exact Fx|].
    intros u [<- | I]; [exact F | now apply Hb].
Qed.

Lemma existsb_eqb_In :
  forall s l, existsb (String.eqb s) l = true <-> In s l.
Proof.
  intros s l. rewrite existsb_exists. split.
  - intros (x & I & E). apply String.eqb_eq in E. now subst.
  - intros I. exists s. split; [exact I | apply String.eqb_refl].
Qed.

(** X17. The baseline that [getLastVersionTag] returns is the first of the
    given version tags (they come highest version first) whose name is among
    the non-empty lines of [git tag --merged]; it returns nothing exactly
    when no given tag is among them. *)
Theorem baseline_is_first_reachable_tag :
  forall (Obs : Type) (git : Git) (dir head : string)
         (versionTags : list VersionTag) (w : World Obs),
    let reachable := filter Str.truthy (git_tags_merged git head) in
    match fst (getLastVersionTag git dir head versionTags w) with
    | Some t =>
        exists higher lower,
          versionTags = (higher ++ t :: lower)%list
          /\ In (tag t) reachable
          /\ forall u, In u higher -> ~ In (tag u) reachable
    | None => forall u, In u versionTags -> ~ In (tag u) reachable
    end.
Proof.
  intros Obs git dir head versionTags w reachable.
  unfold getLastVersionTag.
  destruct versionTags as [|t0 ts] eqn:V; [intros u []|].
  rewrite <- V. unfold bind, gitExec. cbn [fst snd].
  fold reachable.
  destruct reachable as [|r rs] eqn:R; cbn [ret fst].
  - intros u _ [].
  - rewrite <- R.
    destruct (find _ versionTags) as [t|] eqn:F.
    + destruct (find_first _ _ F) as (before & after & E & Ft & Hb).
      exists before, after. repeat split; [exact E | now apply existsb_eqb_In |].
      intros u I In'. apply existsb_eqb_In in In'.
      rewrite (Hb u I) in In'. discriminate.
    + intros u I In'. apply existsb_eqb_In in In'.
      pose proof (find_none _ _ F u I) as N. cbn beta in N.
      rewrite N in In'. discriminate.
Qed.

(** ** The progress messages *)

Lemma ensures_bind :
  forall Obs A B (m : M Obs A) (k : A -> M Obs B) post,
    (forall a, ensures (k a) post) -> ensures (bind m k) post.
Proof.
  intros Obs A B m k post H w. unfold bind.
  destruct (m w) as [a w']. apply H.
Qed.

(** X18. The last thing a run does is to hand the callback the message
    [Calculated version: <version>] with the version it returns. *)
Theorem final_progress_reports_version :
  forall (Obs : Type) (git : Git) (options : ProspectorOptions Obs)
         (f : Callback Obs) (w : World Obs),
    let run := calculateVersion git options w in
    onProgress options = Some f ->
    exists before,
      obs (snd run) = f ("Calculated version: " ++ vi_version (fst run)) before.
Proof.
  intros Obs git options f w run H. subst run. revert w.
  change (ensures (calculateVersion git options)
            (fun info w' =>
               exists before,
                 obs w' = f ("Calculated version: " ++ vi_version info) before)).
  unfold calculateVersion. rewrite H.
  do 10 (apply ensures_bind; intros ?).
  intros w'. unfold bind, progress, ret. cbn [fst snd obs vi_version].
  eexists. reflexivity.
Qed.

Lemma final_progress_reports_version_witness :
  exists before,
    obs (snd (calculateVersion jump_repo
                (with_callback default_config (Some recording))
                {| obs := []; issued := [] |}))
    = ("Calculated version: 1.0.3" :: before)%list.
Proof.
  apply (@final_progress_reports_version (list string) jump_repo
           (with_callback default_config (Some recording)) recording
           {| obs := []; issued := [] |}).
  reflexivity.
Defined.

(** ** The sequence of git commands *)

Section IssuedCommands.

Variable Obs : Type.
Variable git : Git.

Local Abbreviation issues := (@issues Obs _) (only parsing).

Lemma issues_eq :
  forall A (m : M Obs A) l l', issues m l -> l = l' -> issues m l'.
Proof. intros A m l l' H <-. exact H. Qed.

Lemma issues_ret : forall A (a : A), issues (ret a) [].
Proof. intros A a w. cbn. now rewrite app_nil_r. Qed.

Lemma issues_bind :
  forall A B (m : M Obs A) (k : A -> M Obs B) a l1 l2,
    returns m a -> issues m l1 -> issues (k a) l2 ->
    issues (bind m k) (l1 ++ l2).
Proof.
  intros A B m k a l1 l2 Hr Hm Hk w. unfold bind.
  specialize (Hr w). specialize (Hm w).
  destruct (m w) as [a' w']. cbn [fst snd] in *. subst a'.
  now rewrite Hk, Hm, app_assoc.
Qed.

Lemma issues_bind_any :
  forall A B (m : M Obs A) (k : A -> M Obs B) l1 l2,
    issues m l1 -> (forall a, issues (k a) l2) ->
    issues (bind m k) (l1 ++ l2).
Proof.
  intros A B m k l1 l2 Hm Hk w. unfold bind.
  specialize (Hm w). destruct (m w) as [a w']. cbn [fst snd] in *.
  now rewrite Hk, Hm, app_assoc.
Qed.

Lemma issues_progress : forall cb msg, issues (progress cb msg) [].
Proof. intros cb msg w. cbn. now rewrite app_nil_r. Qed.

Lemma issues_progress_opt : forall cb msg, issues (progress_opt cb msg) [].
Proof. intros [cb|] msg; [apply issues_progress | apply issues_ret]. Qed.

Lemma issues_gitExec :
  forall A dir cmd (a : A), issues (gitExec dir cmd a) [(dir, cmd)].
Proof. intros A dir cmd a w. reflexivity. Qed.

(** A step that issues nothing, followed by [k]. *)
Lemma issues_after_silent :
  forall A B (m : M Obs A) (k : A -> M Obs B) l,
    issues m [] -> (forall a, issues (k a) l) -> issues (bind m k) l.
Proof.
  intros A B m k l Hm Hk.
  eapply issues_eq; [apply issues_bind_any; eassumption | reflexivity].
Qed.

Lemma issues_tick_loop :
  forall cb label n dots, issues (tick_loop cb label n dots) [].
Proof.
  intros cb label n. induction n as [|n IH]; intros dots.
  - apply issues_ret.
  - cbn [tick_loop]. apply issues_after_silent;
      [apply issues_progress | intros _; apply IH].
Qed.

Lemma issues_ticks :
  forall (cb : option (Callback Obs)) label,
    issues (match cb with
            | Some f => tick_loop f label (git_ticks git) 0
            | None => ret tt
            end) [].
Proof. intros [f|] label; [apply issues_tick_loop | apply issues_ret]. Qed.

Lemma issues_countCommits :
  forall dir from to cb,
    issues (countCommits git dir from to cb)
           [(dir, RevListCount (from ++ ".." ++ to))].
Proof.
  intros. unfold countCommits.
  eapply issues_eq.
  - apply issues_bind_any; [apply issues_gitExec | intros n].
    apply issues_after_silent; [apply issues_ticks | intros _; apply issues_ret].
  - reflexivity.
Qed.

Lemma issues_countAllCommits :
  forall dir cb,
    issues (countAllCommits git dir cb) [(dir, RevListCount "HEAD")].
Proof.
  intros. unfold countAllCommits.
  eapply issues_eq.
  - apply issues_bind_any; [apply issues_gitExec | intros n].
    apply issues_after_silent; [apply issues_ticks | intros _; apply issues_ret].
  - reflexivity.
Qed.

Lemma issues_getLastVersionTag :
  forall dir head tags,
    issues (getLastVersionTag git dir head tags)
           (match tags with [] => [] | _ => [(dir, TagMerged head)] end).
Proof.
  intros. unfold getLastVersionTag.
  destruct tags; [apply issues_ret|].
  eapply issues_eq.
  - apply issues_bind_any; [apply issues_gitExec | intros out].
    destruct (filter Str.truthy out); apply issues_ret.
  - reflexivity.
Qed.

Lemma issues_parse_chunks :
  forall fuel toLocale cb total i rest acc,
    issues (parse_chunks fuel toLocale cb total i rest acc) [].
Proof.
  induction fuel as [|fuel IH]; intros; destruct rest; cbn [parse_chunks];
    try apply issues_ret.
  apply issues_after_silent; [apply issues_progress_opt | intros _; apply IH].
Qed.

Lemma issues_scan_commits :
  forall dir cb scan last head,
    issues (scan_commits git dir cb scan last head)
           [(dir, scan_command scan last head)].
Proof.
  intros. unfold scan_commits, scan_command.
  destruct scan as [k|].
  - apply issues_after_silent; [apply issues_progress | intros _].
    unfold getCommitMessages.
    eapply issues_eq.
    + apply issues_bind_any with (l2 := []); [apply issues_gitExec | intros b].
      destruct (Str.truthy b); apply issues_ret.
    + cbn [app]. repeat f_equal.
      destruct (0 <? k)%Z eqn:P; [|reflexivity].
      apply Z.ltb_lt in P.
      destruct (k =? 0)%Z eqn:Z0; [apply Z.eqb_eq in Z0; lia | reflexivity].
  - apply issues_after_silent; [apply issues_progress | intros _].
    eapply issues_eq.
    + apply issues_bind_any with (l2 := []).
      * unfold getCommitsWithBumps.
        apply issues_after_silent; [apply issues_progress_opt | intros _].
        apply issues_bind_any with (l2 := []); [apply issues_gitExec | intros output].
        destruct (negb (Str.truthy output)).
        -- apply issues_after_silent;
             [apply issues_progress_opt | intros _; apply issues_ret].
        -- destruct (commit_blocks output).
           ++ apply issues_after_silent;
                [apply issues_progress_opt | intros _; apply issues_ret].
           ++ apply issues_after_silent; [apply issues_progress_opt | intros _].
              apply issues_after_silent; [apply issues_parse_chunks | intros all].
              apply issues_after_silent;
                [apply issues_progress_opt | intros _; apply issues_ret].
      * intros commits.
        apply issues_after_silent;
          [apply issues_progress | intros _; apply issues_ret].
    + reflexivity.
Qed.

Lemma issues_report_bumps :
  forall cb bumps, issues (report_bumps cb bumps) [].
Proof.
  intros. unfold report_bumps.
  destruct (explicit_truthy bumps); [apply issues_progress|].
  destruct (_ || _); [apply issues_progress | apply issues_ret].
Qed.

Lemma issues_count_since :
  forall dir cb scan commits last head,
    issues (count_since git dir cb scan commits last head)
           (if length_is_count scan commits then []
            else [(dir, RevListCount (count_range last head))]).
Proof.
  intros. unfold count_since, count_range.
  destruct last as [t|].
  - eapply issues_eq.
    + apply issues_bind_any
        with (l1 := if length_is_count scan commits then []
                    else [(dir, RevListCount (commit t ++ ".." ++ head))])
             (l2 := []).
      * destruct (length_is_count scan commits); [apply issues_ret|].
        eapply issues_eq.
        -- apply issues_bind_any; [apply issues_countCommits | intros n].
           apply issues_after_silent;
             [apply issues_progress | intros _; apply issues_ret].
        -- reflexivity.
      * intros n. apply issues_after_silent;
          [apply issues_progress | intros _; apply issues_ret].
    + now rewrite app_nil_r.
  - apply issues_after_silent; [apply issues_progress | intros _].
    destruct (length_is_count scan commits); [apply issues_ret|].
    eapply issues_eq.
    + apply issues_bind_any; [apply issues_countAllCommits | intros n].
      apply issues_after_silent;
        [apply issues_progress | intros _; apply issues_ret].
    + reflexivity.
Qed.

(** The commands of a run are [commands_value], each in the directory of
    the run. *)
Lemma issues_calculateVersion :
  forall options,
    issues (calculateVersion git options)
           (map (pair (or_default (cwd options) "."))
                (commands_value git (config_of options))).
Proof.
  intros options. unfold calculateVersion.
  set (dir := or_default (cwd options) ".").
  apply issues_after_silent; [apply issues_progress | intros _].
  eapply issues_eq.
  - eapply issues_bind; [apply returns_getCurrentBranch | |].
    { unfold getCurrentBranch. eapply issues_eq.
      - apply issues_bind_any; [apply issues_gitExec | intros b; apply issues_ret].
      - reflexivity. }
    eapply issues_bind; [apply returns_gitExec | apply issues_gitExec |].
    apply issues_after_silent; [apply issues_progress | intros _].
    apply issues_after_silent; [apply issues_progress | intros _].
    eapply issues_bind; [apply returns_gitExec | apply issues_gitExec |].
    apply issues_after_silent;
      [destruct (git_version_tags git _); apply issues_progress | intros _].
    eapply issues_bind;
      [apply returns_getLastVersionTag | apply issues_getLastVersionTag |].
    eapply issues_bind
      with (a := (fetched_commits git (config_of options),
                  commitBumps (version_value git (config_of options))))
           (l1 := if enabled_of options
                     && isMainBranch (version_value git (config_of options))
                  then [(dir, scan_command (maxCommitScan options)
                                 (lastTag (version_value git (config_of options)))
                                 (git_head git))]
                  else []).
    + unfold version_value, fetched_commits. cbn [commitBumps].
      rewrite !enabled_of_config, !mainBranches_of_config, !bumpPatterns_of_config.
      cbn [config_of c_tagPrefix c_maxCommitScan].
      destruct (enabled_of options && _); [|apply returns_ret].
      eapply returns_bind; [apply returns_scan_commits|].
      eapply returns_bind; [apply returns_report_bumps | apply returns_ret].
    + unfold version_value. cbn [isMainBranch lastTag].
      rewrite !mainBranches_of_config.
      cbn [config_of c_tagPrefix].
      destruct (enabled_of options && _); [|apply issues_ret].
      eapply issues_eq.
      * apply issues_bind_any; [apply issues_scan_commits | intros commits].
        apply issues_after_silent;
          [apply issues_report_bumps | intros _; apply issues_ret].
      * reflexivity.
    + cbn [fst snd].
      apply issues_bind_any with (l2 := []); [apply issues_count_since | intros n].
      apply issues_after_silent;
        [apply issues_progress | intros _; apply issues_ret].
  - unfold commands_value. rewrite enabled_of_config.
    cbn [config_of c_tagPrefix c_maxCommitScan map app].
    unfold version_value at 2 3. cbn [lastTag].
    repeat f_equal.
    rewrite !map_app. subst dir.
    destruct (git_version_tags git _); cbn [map app];
      destruct (enabled_of options && _); cbn [map app];
      destruct (length_is_count _ _); reflexivity.
Qed.

End IssuedCommands.

(** X19. Every git command of a run is issued in the directory of the
    [cwd] option, or in [.] when the option is absent or empty. *)
Theorem commands_run_in_cwd :
  forall (Obs : Type) (git : Git) (options : ProspectorOptions Obs)
         (w : World Obs),
    exists cmds,
      issued (snd (calculateVersion git options w)) = (issued w ++ cmds)%list
      /\ Forall (fun q => fst q = or_default (cwd options) ".") cmds.
Proof.
  intros Obs git options w.
  eexists. split; [apply issues_calculateVersion|].
  apply Forall_forall. intros q I. apply in_map_iff in I.
  destruct I as (c & <- & _). reflexivity.
Qed.

(** X20. A trunk run with commit bumps enabled reads the commit messages
    with exactly one log command: the search with the fixed marker pattern
    when [maxCommitScan] is absent, the plain log otherwise, capped by
    [maxCommitScan] when that is positive; the range starts at the baseline
    tag when there is one. *)
Theorem trunk_run_issues_one_log :
  forall (Obs : Type) (git : Git) (options : ProspectorOptions Obs)
         (w : World Obs),
    let run := calculateVersion git options w in
    isMainBranch (fst run) = true ->
    enabled_of options = true ->
    exists cmds,
      issued (snd run) = (issued w ++ cmds)%list
      /\ filter (fun q => is_log (snd q)) cmds
         = [(or_default (cwd options) ".",
             scan_command (maxCommitScan options) (lastTag (fst run))
                          (currentCommit (fst run)))].
Proof.
  intros Obs git options w run Hmain Hen. subst run.
  eexists. split; [apply issues_calculateVersion|].
  rewrite returns_calculateVersion in *.
  unfold commands_value. rewrite enabled_of_config, Hen, Hmain.
  cbn [andb config_of c_maxCommitScan c_tagPrefix].
  unfold version_value at 2. cbn [currentCommit].
  rewrite !map_app, !filter_app. cbn [map filter snd is_log].
  destruct (git_version_tags git _); cbn [map filter snd is_log app];
    destruct (length_is_count _ _); cbn [map filter snd is_log app];
    unfold scan_command; destruct (maxCommitScan options);
    cbn [is_log]; reflexivity.
Qed.

Lemma trunk_run_issues_one_log_witness :
  exists cmds,
    issued (snd (calculateVersion jump_repo targeted_options world0))
    = (issued world0 ++ cmds)%list
    /\ filter (fun q => is_log (snd q)) cmds
       = [(".", LogGrep "base..head" BUMP_GREP_PATTERN)].
Proof.
  apply (@trunk_run_issues_one_log unit jump_repo targeted_options world0);
    reflexivity.
Defined.

(** ** Splitting a command line *)

Lemma eqb_one_char :
  forall c q, String.eqb (String c "") (String q "") = Ascii.eqb c q.
Proof.
  intros c q. cbn [String.eqb]. destruct (Ascii.eqb c q); reflexivity.
Qed.

Lemma parse_plain :
  forall word rest args current,
    string_forall plain_char word = true ->
    parse_args_loop (word ++ rest) args current false ""
    = parse_args_loop rest args (current ++ word) false "".
Proof.
  induction word as [|c word IH]; intros rest args current H.
  - cbn [append]. now rewrite str_app_nil_r.
  - cbn [string_forall] in H. apply andb_true_iff in H as [Hc Hw].
    unfold plain_char in Hc. apply andb_true_iff in Hc as [Hq Hs].
    apply negb_true_iff in Hq, Hs.
    cbn [append parse_args_loop]. rewrite Hq, Hs, andb_false_r. cbn [andb].
    rewrite IH by exact Hw. now rewrite str_app_assoc.
Qed.

Lemma parse_space :
  forall rest args current,
    parse_args_loop (String " " rest) args current false ""
    = parse_args_loop rest
        (if Str.truthy current then (args ++ [current])%list else args)
        "" false "".
Proof.
  intros rest args current. cbn [parse_args_loop].
  change (is_quote " ") with false. cbn [andb negb].
  change (Ascii.eqb " " " ") with true. cbn [andb].
  destruct current; reflexivity.
Qed.

Lemma parse_inside_squotes :
  forall text rest args current,
    string_forall not_squote text = true ->
    parse_args_loop (text ++ String squote rest) args current true
                    (String squote "")
    = parse_args_loop rest args (current ++ text) false "".
Proof.
  induction text as [|c text IH]; intros rest args current H.
  - cbn [append parse_args_loop]. rewrite andb_false_r.
    rewrite String.eqb_refl, str_app_nil_r. reflexivity.
  - cbn [string_forall] in H. apply andb_true_iff in H as [Hc Ht].
    unfold not_squote in Hc. apply negb_true_iff in Hc.
    cbn [append parse_args_loop]. rewrite !andb_false_r.
    rewrite eqb_one_char, Hc. cbn [andb].
    rewrite IH by exact Ht. now rewrite str_app_assoc.
Qed.

Lemma parse_squoted :
  forall text rest args current,
    string_forall not_squote text = true ->
    parse_args_loop (String squote (text ++ String squote rest)) args current
                    false ""
    = parse_args_loop rest args (current ++ text) false "".
Proof.
  intros text rest args current H. cbn [parse_args_loop].
  change (is_quote squote) with true. cbn [andb negb].
  now apply parse_inside_squotes.
Qed.

Lemma parse_loop_nonempty :
  forall command args current inQuote quoteChar,
    Forall (fun a => a <> "") args ->
    Forall (fun a => a <> "")
           (parse_args_loop command args current inQuote quoteChar).
Proof.
  induction command as [|c command IH]; intros args current inQuote quoteChar H;
    cbn [parse_args_loop].
  - destruct current; [exact H|].
    apply Forall_app. split; [exact H | repeat constructor; discriminate].
  - destruct (is_quote c && negb inQuote); [now apply IH|].
    destruct (String.eqb _ quoteChar && inQuote); [now apply IH|].
    destruct (Ascii.eqb c " " && negb inQuote); [|now apply IH].
    destruct current; [now apply IH|].
    apply IH. apply Forall_app. split; [exact H | repeat constructor; discriminate].
Qed.

(** X21. [parseCommandArgs] never produces an empty argument: runs of
    spaces and empty quoted strings add nothing. *)
Theorem parseCommandArgs_no_empty_argument :
  forall command : string,
    Forall (fun a => a <> "") (parseCommandArgs command).
Proof.
  intros command. unfold parseCommandArgs.
  apply parse_loop_nonempty. constructor.
Qed.

Lemma parse_join :
  forall words args,
    forallb plain_word words = true ->
    parse_args_loop (Str.join " " words) args "" false ""
    = (args ++ words)%list.
Proof.
  induction words as [|x words IH]; intros args H.
  - cbn. now rewrite app_nil_r.
  - cbn [forallb] in H. apply andb_true_iff in H as [Hx Hw].
    unfold plain_word in Hx. apply andb_true_iff in Hx as [Hp Hn].
    destruct words as [|y words].
    + cbn [Str.join].
      rewrite <- (str_app_nil_r x) at 1. rewrite parse_plain by exact Hp.
      cbn [append parse_args_loop]. now rewrite Hn.
    + change (Str.join " " (x :: y :: words))
        with (x ++ String " " (Str.join " " (y :: words))).
      rewrite parse_plain by exact Hp. cbn [append].
      rewrite parse_space, Hn, IH by exact Hw.
      now rewrite <- app_assoc.
Qed.

(** X22. Splitting is the inverse of joining with single spaces: for
    non-empty words without spaces and quotes,
    [parseCommandArgs (words.join(' '))] gives the words back. *)
Theorem parseCommandArgs_join :
  forall words : list string,
    forallb plain_word words = true ->
    parseCommandArgs (Str.join " " words) = words.
Proof.
  intros words H. unfold parseCommandArgs. now rewrite parse_join.
Qed.

Lemma parseCommandArgs_join_witness :
  parseCommandArgs (Str.join " " ["rev-list"; "--count"; "base..head"])
  = ["rev-list"; "--count"; "base..head"].
Proof.
  apply (@parseCommandArgs_join ["rev-list"; "--count"; "base..head"]).
  reflexivity.
Defined.

(** X23. The command line of the targeted scan is split into six
    arguments for any range that is a non-empty word without spaces and
    quotes: the quotes around the pattern are removed and its backslashes
    are kept, so git receives [--grep=<pattern>] as one argument. *)
Theorem grep_command_line_arguments :
  forall range : string,
    plain_word range = true ->
    parseCommandArgs (grep_command_line range)
    = ["log"; range; "--grep=" ++ BUMP_GREP_PATTERN; "-E"; "-i"; LOG_FORMAT].
Proof.
  intros range H. unfold plain_word in H. apply andb_true_iff in H as [Hp Hn].
  unfold parseCommandArgs, grep_command_line.
  change ("log " ++ range ++ " --grep='" ++ BUMP_GREP_PATTERN
          ++ "' -E -i " ++ LOG_FORMAT)
    with ("log" ++ String " " (range ++ String " " ("--grep="
          ++ String squote (BUMP_GREP_PATTERN ++ String squote
               (String " " ("-E" ++ String " " ("-i" ++ String " "
                  (LOG_FORMAT ++ "")))))))).
  rewrite parse_plain by reflexivity.
  rewrite parse_space, str_app_nil_l. cbn [Str.truthy].
  rewrite parse_plain by exact Hp.
  rewrite parse_space, str_app_nil_l, Hn.
  rewrite parse_plain by reflexivity. rewrite str_app_nil_l.
  rewrite parse_squoted by reflexivity.
  rewrite parse_space.
  change (Str.truthy ("--grep=" ++ BUMP_GREP_PATTERN)) with true. cbv iota.
  rewrite parse_plain by reflexivity.
  rewrite parse_space, str_app_nil_l. cbn [Str.truthy].
  rewrite parse_plain by reflexivity.
  rewrite parse_space, str_app_nil_l. cbn [Str.truthy].
  rewrite parse_plain by reflexivity.
  reflexivity.
Qed.

Lemma grep_command_line_arguments_witness :
  parseCommandArgs (grep_command_line "base..head")
  = ["log"; "base..head"; "--grep=" ++ BUMP_GREP_PATTERN; "-E"; "-i"; LOG_FORMAT].
Proof.
  apply (@grep_command_line_arguments "base..head"). reflexivity.
Defined.

Lemma digit_is_plain : forall c, Str.is_digit c = true -> plain_char c = true.
Proof.
  intros c H. unfold plain_char, is_quote.
  destruct (Ascii.eqb c dquote) eqn:D;
    [apply Ascii.eqb_eq in D; subst c; discriminate|].
  destruct (Ascii.eqb c squote) eqn:Q;
    [apply Ascii.eqb_eq in Q; subst c; discriminate|].
  destruct (Ascii.eqb c " ") eqn:P;
    [apply Ascii.eqb_eq in P; subst c; discriminate|].
  reflexivity.
Qed.

Lemma digits_are_plain :
  forall s, string_forall Str.is_digit s = true -> string_forall plain_char s = true.
Proof.
  induction s as [|c s IH]; cbn [string_forall]; intros H; [reflexivity|].
  apply andb_true_iff in H as [Hc Hs]. now rewrite (digit_is_plain _ Hc), IH.
Qed.

Lemma of_Z_positive : forall l, (0 < l)%Z -> Str.of_Z l = Str.of_N (Z.to_N l).
Proof. intros [|p|p] H; try lia. reflexivity. Qed.

(** X24. The command line of the exhaustive scan has no empty argument
    where the limit is absent: for a range that is a non-empty word it is
    split into [log], the range and the format, with [-n] and the limit
    between them when a positive limit is given. *)
Theorem log_command_line_arguments :
  forall (range : string) (limit : option Z),
    plain_word range = true ->
    (forall l, limit = Some l -> (0 < l)%Z) ->
    parseCommandArgs (log_command_line range limit)
    = (["log"; range]
       ++ match limit with Some l => ["-n"; Str.of_Z l] | None => [] end
       ++ [LOG_FORMAT])%list.
Proof.
  intros range limit H Hl. unfold plain_word in H.
  apply andb_true_iff in H as [Hp Hn].
  unfold parseCommandArgs, log_command_line.
  destruct limit as [l|].
  - specialize (Hl l eq_refl).
    destruct (l =? 0)%Z eqn:Z0; [apply Z.eqb_eq in Z0; lia|].
    pose proof (of_N_digits (Z.to_N l)) as D. rewrite <- of_Z_positive in D by exact Hl.
    unfold digits_only in D. apply andb_true_iff in D as [Dd Dn].
    apply digits_are_plain in Dd.
    change ("log " ++ range ++ " " ++ ("-n " ++ Str.of_Z l) ++ " " ++ LOG_FORMAT)
      with ("log" ++ String " " (range ++ String " " ("-n" ++ String " "
              (Str.of_Z l ++ String " " (LOG_FORMAT ++ ""))))).
    rewrite parse_plain by reflexivity.
    rewrite parse_space, str_app_nil_l. cbn [Str.truthy].
    rewrite parse_plain by exact Hp.
    rewrite parse_space, str_app_nil_l, Hn.
    rewrite parse_plain by reflexivity.
    rewrite parse_space, str_app_nil_l. cbn [Str.truthy].
    rewrite parse_plain by exact Dd.
    rewrite parse_space, str_app_nil_l, Dn.
    rewrite parse_plain by reflexivity.
    reflexivity.
  - change ("log " ++ range ++ " " ++ "" ++ " " ++ LOG_FORMAT)
      with ("log" ++ String " " (range ++ String " " (String " "
              (LOG_FORMAT ++ "")))).
    rewrite parse_plain by reflexivity.
    rewrite parse_space, str_app_nil_l. cbn [Str.truthy].
    rewrite parse_plain by exact Hp.
    rewrite parse_space, str_app_nil_l, Hn.
    rewrite parse_space. cbn [Str.truthy].
    rewrite parse_plain by reflexivity.
    reflexivity.
Qed.

Lemma log_command_line_arguments_witness :
  parseCommandArgs (log_command_line "base..head" None)
  = ["log"; "base..head"; LOG_FORMAT]
  /\ parseCommandArgs (log_command_line "base..head" (Some 25%Z))
     = ["log"; "base..head"; "-n"; "25"; LOG_FORMAT].
Proof.
  split.
  - apply (@log_command_line_arguments "base..head" None);
      [reflexivity | discriminate].
  - apply (@log_command_line_arguments "base..head" (Some 25%Z));
      [reflexivity | intros l [= <-]; reflexivity].
Defined.

(** ** The arguments of the command line interface *)

Lemma hyphen_name_mismatch :
  forall arg name,
    starts_with_hyphen arg = false -> starts_with_hyphen name = true ->
    String.eqb arg name = false.
Proof.
  intros arg name Ha Hn.
  destruct (String.eqb arg name) eqn:E; [|reflexivity].
  apply String.eqb_eq in E. subst. congruence.
Qed.

Ltac flag_tests H :=
  unfold known_option, takes_value, is_help, is_one_of in H;
  cbn [existsb] in H;
  repeat match goal with
         | X : (_ || _) = false |- _ =>
             apply orb_false_iff in X; destruct X
         end.

Lemma parse_positional :
  forall arg rest o,
    starts_with_hyphen arg = false ->
    parseArguments (arg :: rest) o = parseArguments rest o.
Proof.
  intros arg rest o H. cbn [parseArguments is_one_of existsb].
  rewrite !(@hyphen_name_mismatch arg _ H) by reflexivity.
  cbn [orb]. unfold starts_with_hyphen in H. now rewrite H.
Qed.

(** X25. Arguments that do not start with a hyphen are ignored: a command
    line made of such arguments leaves the options as they are. *)
Theorem cli_positional_arguments_ignored :
  forall (args : list string) (o : CLIOptions),
    forallb (fun a => negb (starts_with_hyphen a)) args = true ->
    parseArguments args o = Parsed o.
Proof.
  induction args as [|a args IH]; intros o H; [reflexivity|].
  cbn [forallb] in H. apply andb_true_iff in H as [Ha Hr].
  apply negb_true_iff in Ha. rewrite parse_positional by exact Ha.
  now apply IH.
Qed.

Lemma cli_positional_arguments_ignored_witness :
  ProspectorCLI ["some"; "words"; ""] = Parsed cli_defaults.
Proof.
  apply (@cli_positional_arguments_ignored ["some"; "words"; ""] cli_defaults).
  reflexivity.
Defined.

Lemma parse_no_value_no_exit :
  forall arg rest o,
    no_value_no_exit arg = true ->
    exists o', parseArguments (arg :: rest) o = parseArguments rest o'.
Proof.
  intros arg rest o H. unfold no_value_no_exit in H.
  apply andb_true_iff in H as [H Hk]. apply andb_true_iff in H as [Hv Hh].
  apply negb_true_iff in Hv, Hh.
  flag_tests Hv. flag_tests Hh.
  cbn [parseArguments is_one_of existsb].
  repeat match goal with
         | E : String.eqb arg _ = false |- _ => rewrite E; clear E
         end.
  cbn [orb].
  destruct (String.eqb arg "--json") eqn:J; [eexists; reflexivity|].
  destruct (String.eqb arg "--detailed") eqn:D; [eexists; reflexivity|].
  destruct (String.eqb arg "--no-commit-bumps") eqn:B; [eexists; reflexivity|].
  destruct (String.eqb arg "--show-memory") eqn:M; [eexists; reflexivity|].
  cbn [is_one_of existsb] in Hk. rewrite J, D, B, M in Hk.
  cbn [orb] in Hk. rewrite orb_false_r in Hk. apply negb_true_iff in Hk.
  unfold starts_with_hyphen in Hk. rewrite Hk. eexists; reflexivity.
Qed.

(** X26. An unknown option ends the process with code 1 and names the
    option on the error stream, when the arguments before it are
    positional arguments or options without a value; what follows it is
    not looked at. *)
Theorem cli_unknown_option_exits :
  forall (before : list string) (arg : string) (after : list string)
         (o : CLIOptions),
    forallb no_value_no_exit before = true ->
    starts_with_hyphen arg = true ->
    known_option arg = false ->
    parseArguments (before ++ arg :: after) o
    = Exited 1 ["Unknown option: " ++ arg; "Use --help for usage information"].
Proof.
  induction before as [|b before IH]; intros arg after o Hb Ha Hk.
  - flag_tests Hk.
    cbn [app parseArguments is_one_of existsb].
    repeat match goal with
           | E : String.eqb arg _ = false |- _ => rewrite E; clear E
           end.
    cbn [orb]. unfold starts_with_hyphen in Ha. now rewrite Ha.
  - cbn [forallb] in Hb. apply andb_true_iff in Hb as [Hb1 Hb2].
    destruct (@parse_no_value_no_exit b (before ++ arg :: after) o Hb1) as [o2 E].
    cbn [app]. rewrite E. now apply IH.
Qed.

Lemma cli_unknown_option_exits_witness :
  ProspectorCLI (["--json"; "repo"] ++ "--verbose" :: ["--help"])
  = Exited 1 ["Unknown option: --verbose"; "Use --help for usage information"].
Proof.
  apply (@cli_unknown_option_exits ["--json"; "repo"] "--verbose" ["--help"]
           cli_defaults); reflexivity.
Defined.

Lemma disabled_needs_flag :
  forall n args o o',
    (length args <= n)%nat ->
    parseArguments args o = Parsed o' ->
    cli_enableCommitBumps o' = false ->
    cli_enableCommitBumps o = false \/ In "--no-commit-bumps" args.
Proof.
  induction n as [|n IH]; intros args o o' Hlen Hp Hd.
  - destruct args; [|cbn in Hlen; lia].
    cbn in Hp. injection Hp as <-. now left.
  - destruct args as [|arg rest].
    { cbn in Hp. injection Hp as <-. now left. }
    cbn [length] in Hlen.
    assert (Value : forall set,
               (forall x v, cli_enableCommitBumps (set x v)
                            = cli_enableCommitBumps x) ->
               match rest with
               | v :: rest' => parseArguments rest' (set o (Some v))
               | [] => Parsed (set o None)
               end = Parsed o' ->
               cli_enableCommitBumps o = false
               \/ In "--no-commit-bumps" (arg :: rest)).
    { intros set Hset H. destruct rest as [|v rest'].
      - injection H as <-. left. now rewrite Hset in Hd.
      - cbn [length] in Hlen.
        destruct (IH rest' _ _ ltac:(lia) H Hd) as [L | R].
        + left. now rewrite Hset in L.
        + right. right. now right. }
    assert (Flag : forall x,
               cli_enableCommitBumps x = cli_enableCommitBumps o ->
               parseArguments rest x = Parsed o' ->
               cli_enableCommitBumps o = false
               \/ In "--no-commit-bumps" (arg :: rest)).
    { intros x Hx H.
      destruct (IH rest _ _ ltac:(lia) H Hd) as [L | R].
      - left. now rewrite Hx in L.
      - right. now right. }
    cbn [parseArguments] in Hp.
    destruct (is_one_of ["-h"; "--help"] arg); [discriminate|].
    destruct (is_one_of ["-d"; "--dir"] arg);
      [now apply (Value set_cwd)|].
    destruct (is_one_of ["-b"; "--branch"] arg);
      [now apply (Value set_mainBranch)|].
    destruct (is_one_of ["-p"; "--prefix"] arg);
      [now apply (Value set_tagPrefix)|].
    destruct (String.eqb arg "--json");
      [now apply (Flag (set_format o FormatJson))|].
    destruct (String.eqb arg "--detailed");
      [now apply (Flag (set_format o FormatDetailed))|].
    destruct (String.eqb arg "--suggest");
      [now apply (Value set_suggest)|].
    destruct (String.eqb arg "--no-commit-bumps") eqn:B;
      [apply String.eqb_eq in B; subst arg; right; now left|].
    destruct (String.eqb arg "--show-memory");
      [now apply (Flag (set_showMemory o true))|].
    destruct (String.prefix "-" arg); [discriminate|].
    now apply (Flag o).
Qed.

(** X27. The command line interface disables commit bumps only when
    [--no-commit-bumps] is among the arguments: whenever the parsed options
    have bumps disabled, the flag was given. *)
Theorem cli_disables_bumps_only_by_flag :
  forall (args : list string) (o : CLIOptions),
    ProspectorCLI args = Parsed o ->
    cli_enableCommitBumps o = false ->
    In "--no-commit-bumps" args.
Proof.
  intros args o Hp Hd. unfold ProspectorCLI in Hp.
  destruct (@disabled_needs_flag (length args) args cli_defaults o
              (le_n _) Hp Hd) as [L | R]; [discriminate | exact R].
Qed.

Lemma cli_disables_bumps_only_by_flag_witness :
  In "--no-commit-bumps" ["--dir"; "repo"; "--no-commit-bumps"; "--json"].
Proof.
  apply (@cli_disables_bumps_only_by_flag
           ["--dir"; "repo"; "--no-commit-bumps"; "--json"]
           {| cli_cwd := Some "repo"; cli_mainBranch := None;
              cli_tagPrefix := Some "v"; cli_format := FormatJson;
              cli_suggest := None; cli_enableCommitBumps := false;
              cli_showMemory := false |});
    reflexivity.
Defined.

(** ** What does not influence a result *)

(** X28. When commit bumps are disabled or the branch is not a trunk
    branch, the result does not depend on the commit messages: replacing the
    log of the repository by any other log gives the same [VersionInfo]. *)
Theorem result_ignores_messages_without_analysis :
  forall (Obs : Type) (git : Git) (log : string -> list CommitInfo)
         (options : ProspectorOptions Obs) (w1 w2 : World Obs),
    enabled_of options = false
    \/ isMainBranch (fst (calculateVersion git options w1)) = false ->
    fst (calculateVersion (with_log git log) options w2)
    = fst (calculateVersion git options w1).
Proof.
  intros Obs git log options w1 w2 H.
  rewrite !returns_calculateVersion in *.
  assert (G : enabled_of options
              && isMainBranch (version_value git (config_of options)) = false).
  { destruct H as [-> | ->]; [reflexivity | apply andb_false_r]. }
  unfold version_value, fetched_commits in *.
  cbn [isMainBranch] in G.
  rewrite !enabled_of_config, !mainBranches_of_config in *.
  change (git_branch (with_log git log)) with (git_branch git).
  change (git_head (with_log git log)) with (git_head git).
  change (last_tag_value (with_log git log)) with (last_tag_value git).
  rewrite G. reflexivity.
Qed.

Lemma result_ignores_messages_without_analysis_witness :
  fst (calculateVersion
         (with_log major_repo (fun _ => [commit_of "c9" "[v:9.9.9] other"]))
         disabled_options world0)
  = fst (calculateVersion major_repo disabled_options world0).
Proof.
  apply (@result_ignores_messages_without_analysis unit major_repo
           (fun _ => [commit_of "c9" "[v:9.9.9] other"]) disabled_options
           world0 world0).
  left. reflexivity.
Defined.

(** X29. The result does not depend on the host: how often the timer of a
    count fires and how the host formats numbers change the progress
    messages only. *)
Theorem result_ignores_timing_and_locale :
  forall (Obs : Type) (git : Git) (ticks : nat) (locale : N -> string)
         (options : ProspectorOptions Obs) (w1 w2 : World Obs),
    fst (calculateVersion (with_host git ticks locale) options w2)
    = fst (calculateVersion git options w1).
Proof.
  intros Obs git ticks locale options w1 w2.
  rewrite !returns_calculateVersion. reflexivity.
Qed.
